(** * alpha_beta_dashboard: rolling correlation and beta of a strategy against TAIEX

    A shallow embedding of [calc_metrics] and of the snapshot part of [main]
    (src/alpha_beta_dashboard.py).

    Numbers.  A pandas float64 cell is modelled by [float]: an exact real
    number, one of the two infinities, or NaN (pandas' missing value).
    Arithmetic on finite cells is exact real arithmetic: rounding is not
    modelled, and neither is the sign of zero.  Division follows numpy's
    rule for floats, which never raises: x/0 is an infinity for x <> 0 and
    NaN for x = 0.  Where a window has a variance of zero the float64 code
    divides one rounding residue by another; nothing is stated here about
    the value it then shows.

    Dates are day numbers in [Z].  A [Series] is the list of its
    (index label, cell) rows, in the order pandas stores them; an input cell
    is a real number or missing ([None], pandas' NaN). *)

From Stdlib Require Import Reals Lra Lia List ZArith Bool ListDec.
From Stdlib Require Import Sorting.Sorted Sorting.Permutation.
Import ListNotations.

Open Scope R_scope.

(** ** Float cells *)

Inductive float : Type :=
| Fin (r : R)
| PInf
| NInf
| NaN.

(** [a / b] on float64, as numpy evaluates it elementwise. *)
Definition fdiv (a b : float) : float :=
  match a, b with
  | NaN, _ => NaN
  | _, NaN => NaN
  | Fin x, Fin y =>
      if Req_dec_T y 0
      then (if Req_dec_T x 0 then NaN
            else if Rlt_dec 0 x then PInf else NInf)
      else Fin (x / y)
  | Fin _, PInf => Fin 0
  | Fin _, NInf => Fin 0
  | PInf, Fin y => if Rlt_dec y 0 then NInf else PInf
  | NInf, Fin y => if Rlt_dec y 0 then PInf else NInf
  | PInf, PInf => NaN
  | PInf, NInf => NaN
  | NInf, PInf => NaN
  | NInf, NInf => NaN
  end.

(** [a - b] on float64. *)
Definition fsub (a b : float) : float :=
  match a, b with
  | NaN, _ => NaN
  | _, NaN => NaN
  | Fin x, Fin y => Fin (x - y)
  | Fin _, PInf => NInf
  | Fin _, NInf => PInf
  | PInf, PInf => NaN
  | PInf, _ => PInf
  | NInf, NInf => NaN
  | NInf, _ => NInf
  end.

(** [a > t] for a float cell and a finite threshold: false on NaN. *)
Definition fgt (a : float) (t : R) : bool :=
  match a with
  | Fin x => if Rlt_dec t x then true else false
  | PInf => true
  | NInf => false
  | NaN => false
  end.

(** [|a| > t], the comparison the specification words the alert with. *)
Definition fabs_gt (a : float) (t : R) : bool :=
  match a with
  | Fin x => if Rlt_dec t (Rabs x) then true else false
  | PInf => true
  | NInf => true
  | NaN => false
  end.

(** ** Window statistics

    What pandas' rolling aggregations return for one full window, in exact
    arithmetic.  [var] is the sample variance (ddof = 1) that [roll_var]
    accumulates; [cov] is pandas' formula
    [(mean(x*y) - mean(x)*mean(y)) * (n / (n - ddof))]; the correlation is
    [cov / (var_x * var_y) ** 0.5].  The formulas are those of a window of
    at least two rows, as WINDOW = 60 is. *)

Definition rsum (l : list R) : R := fold_right Rplus 0 l.

Definition mean (l : list R) : R := rsum l / INR (length l).

Definition xs (win : list (R * R)) : list R := map fst win.
Definition ys (win : list (R * R)) : list R := map snd win.

(** Sum of squared deviations from the mean. *)
Definition ssd (l : list R) : R :=
  rsum (map (fun x => (x - mean l) * (x - mean l)) l).

Definition var (l : list R) : R := ssd l / (INR (length l) - 1).

Definition cov (win : list (R * R)) : R :=
  (mean (map (fun p => fst p * snd p) win) - mean (xs win) * mean (ys win))
  * (INR (length win) / (INR (length win) - 1)).

Definition corr_denominator (win : list (R * R)) : R :=
  sqrt (var (xs win) * var (ys win)).

Definition window_corr (win : list (R * R)) : float :=
  fdiv (Fin (cov win)) (Fin (corr_denominator win)).

Definition window_beta (win : list (R * R)) : float :=
  fdiv (Fin (cov win)) (Fin (var (ys win))).

(** Sum of cross products of deviations; [cov] times [n - 1]. *)
Definition scp (win : list (R * R)) : R :=
  rsum (map (fun p => (fst p - mean (xs win)) * (snd p - mean (ys win))) win).

(** ** Series, exceptions and the joined frame *)

Definition date : Type := Z.

Definition Series : Type := list (date * option R).

Definition index (s : Series) : list date := map fst s.
Definition values (s : Series) : list (option R) := map snd s.

Inductive exn : Type :=
| ReindexError   (* pandas: cannot reindex on an axis with duplicate labels *)
| IndexError.    (* pandas: single positional indexer is out-of-bounds *)

Inductive result (A : Type) : Type :=
| Ok (a : A)
| Raise (e : exn).

Arguments Ok {A} a.
Arguments Raise {A} e.

Definition bind {A B : Type} (m : result A) (k : A -> result B) : result B :=
  match m with
  | Ok a => k a
  | Raise e => Raise e
  end.

Notation "x <- m ;; k" := (bind m (fun x => k))
  (at level 61, m at next level, right associativity).

(** Removal of one occurrence, and multiset difference [l2 - l1]. *)
Fixpoint remove1 (d : date) (l : list date) : list date :=
  match l with
  | [] => []
  | h :: t => if Z.eq_dec d h then t else h :: remove1 d t
  end.

Definition msub (l2 l1 : list date) : list date :=
  fold_left (fun acc d => remove1 d acc) l1 l2.

Fixpoint insert_date (d : date) (l : list date) : list date :=
  match l with
  | [] => [d]
  | h :: t => if (d <=? h)%Z then d :: h :: t else h :: insert_date d t
  end.

Definition sort_dates (l : list date) : list date :=
  fold_right insert_date [] l.

(** The row labels of [pd.concat([s, b], axis=1)] for two DatetimeIndex
    operands.  pandas documents the rule of [concat]: the other axis is
    sorted "if it is not already aligned", and a DatetimeIndex that is not
    aligned "is always sorted".  Through [Index.union] with [sort=None]: an
    index equal to the other one, or facing an empty one, is returned as it
    is; otherwise the union is sorted, a label being repeated as often as
    in the operand that repeats it most. *)
Definition union_index (l1 l2 : list date) : list date :=
  if list_eq_dec Z.eq_dec l1 l2 then l1
  else match l2 with
       | [] => l1
       | _ :: _ =>
           match l1 with
           | [] => l2
           | _ :: _ => sort_dates (l1 ++ msub l2 l1)
           end
       end.

(** [s[d]] for a label the series holds once; NaN for a label it lacks. *)
Definition get (s : Series) (d : date) : option R :=
  match find (fun p => (fst p =? d)%Z) s with
  | Some (_, v) => v
  | None => None
  end.

(** [s.reindex(idx)]: nothing to do when the labels are already [idx];
    refused when the series repeats a label. *)
Definition reindex (s : Series) (idx : list date) : result (list (option R)) :=
  if list_eq_dec Z.eq_dec (index s) idx then Ok (values s)
  else if NoDup_dec Z.eq_dec (index s) then Ok (map (get s) idx)
  else Raise ReindexError.

Definition frame_row : Type := (date * option R * option R)%type.

Definition concat_axis1 (s b : Series) : result (list frame_row) :=
  let idx := union_index (index s) (index b) in
  col_s <- reindex s idx ;;
  col_b <- reindex b idx ;;
  Ok (combine (combine idx col_s) col_b).

Definition aligned_row : Type := (date * R * R)%type.

(** [DataFrame.dropna()]: rows with a missing cell are dropped. *)
Fixpoint dropna (l : list frame_row) : list aligned_row :=
  match l with
  | [] => []
  | (d, Some x, Some y) :: t => (d, x, y) :: dropna t
  | _ :: t => dropna t
  end.

(** Line 22: [merged = pd.concat([strategy_ret, twii_ret], axis=1).dropna()]. *)
Definition merge (strategy_ret twii_ret : Series) : result (list aligned_row) :=
  frame <- concat_axis1 strategy_ret twii_ret ;;
  Ok (dropna frame).

(** ** Rolling metrics *)

Definition WINDOW : nat := 60.

Record row : Type := mkRow {
  r_date : date;
  ret : R;
  twii_ret : R;
  corr : float;
  beta : float
}.

Definition table : Type := list row.

Definition returns (m : list aligned_row) : list (R * R) :=
  map (fun r => (snd (fst r), snd r)) m.

(** The trailing window of [w] observations ending at position [i]. *)
Definition window_at {A : Type} (w : nat) (l : list A) (i : nat) : list A :=
  firstn w (skipn (i + 1 - w) l).

(** [.rolling(w).agg(...)]: NaN until [w] observations are available
    ([min_periods] defaults to the window size). *)
Definition rolling {A : Type} (w : nat) (agg : list A -> float) (l : list A)
  : list float :=
  map (fun i => if (w <=? i + 1)%nat then agg (window_at w l i) else NaN)
      (seq 0 (length l)).

Definition rolling_corr (w : nat) (l : list (R * R)) : list float :=
  rolling w window_corr l.

Definition rolling_cov (w : nat) (l : list (R * R)) : list float :=
  rolling w (fun win => Fin (cov win)) l.

Definition rolling_var (w : nat) (l : list (R * R)) : list float :=
  rolling w (fun win => Fin (var (ys win))) l.

(** Elementwise [cov / var] of two columns over the same index. *)
Definition div_columns (a b : list float) : list float :=
  map (fun p => fdiv (fst p) (snd p)) (combine a b).

Definition add_columns (m : list aligned_row) (corrs betas : list float) : table :=
  map (fun r => mkRow (fst (fst (fst (fst r)))) (snd (fst (fst (fst r))))
                      (snd (fst (fst r))) (snd (fst r)) (snd r))
      (combine (combine m corrs) betas).

(** Lines 23-30 of [calc_metrics], for a window of [w] rows. *)
Definition rolling_metrics_w (w : nat) (merged : list aligned_row) : table :=
  let corrs := rolling_corr w (returns merged) in
  let cov_col := rolling_cov w (returns merged) in
  let var_col := rolling_var w (returns merged) in
  add_columns merged corrs (div_columns cov_col var_col).

Definition rolling_metrics : list aligned_row -> table :=
  rolling_metrics_w WINDOW.

Definition calc_metrics_w (w : nat) (strategy_ret twii_ret : Series)
  : result table :=
  merged <- merge strategy_ret twii_ret ;;
  Ok (rolling_metrics_w w merged).

Definition calc_metrics : Series -> Series -> result table :=
  calc_metrics_w WINDOW.

(** ** The snapshot of [main] (lines 81-92) *)

Record Snapshot : Type := mkSnapshot {
  latest_corr : float;
  latest_beta : float;
  delta_corr : float;
  delta_beta : float;
  alert : bool
}.

(** [metrics.iloc[-k]] for k = 1, 2. *)
Definition iloc_neg {A : Type} (k : nat) (l : list A) : result A :=
  match nth_error (rev l) (k - 1) with
  | Some a => Ok a
  | None => Raise IndexError
  end.

(** Line 92: the signed values are compared with 0.4. *)
Definition alert_flag (c b : float) : bool :=
  fgt c (4 / 10) || fgt b (4 / 10).

(** The flag as the specification words it, on absolute values. *)
Definition alert_flag_abs (c b : float) : bool :=
  fabs_gt c (4 / 10) || fabs_gt b (4 / 10).

Definition snapshot (metrics : table) : result Snapshot :=
  latest <- iloc_neg 1 metrics ;;
  dc <- (if (1 <? length metrics)%nat
         then prev <- iloc_neg 2 metrics ;; Ok (fsub (corr latest) (corr prev))
         else Ok (Fin 0)) ;;
  db <- (if (1 <? length metrics)%nat
         then prev <- iloc_neg 2 metrics ;; Ok (fsub (beta latest) (beta prev))
         else Ok (Fin 0)) ;;
  Ok (mkSnapshot (corr latest) (beta latest) dc db
                 (alert_flag (corr latest) (beta latest))).

(** Lines 79-92 together: the metrics, then the snapshot shown to the user. *)
Definition dashboard (strategy_ret twii_ret : Series) : result Snapshot :=
  metrics <- calc_metrics strategy_ret twii_ret ;;
  snapshot metrics.

(** ** The benchmark returns of [fetch_taiex] (line 17)

    [df["Adj Close"].pct_change().dropna()] on the adjusted closing prices
    that the download returned, here a list of (date, price) rows with real
    prices.  [pct_change] is [p / p.shift(1) - 1] in float arithmetic; the
    first row has no predecessor and is NaN. *)

Definition Prices : Type := list (date * R).

Fixpoint pct_change_from (prev : R) (l : Prices) : list (date * float) :=
  match l with
  | [] => []
  | (d, p) :: t =>
      (d, fsub (fdiv (Fin p) (Fin prev)) (Fin 1)) :: pct_change_from p t
  end.

Definition pct_change (l : Prices) : list (date * float) :=
  match l with
  | [] => []
  | (d, p) :: t => (d, NaN) :: pct_change_from p t
  end.

Definition notna (c : float) : bool :=
  match c with NaN => false | _ => true end.

(** [Series.dropna()]: NaN cells go, infinite ones stay. *)
Definition dropna_cells (l : list (date * float)) : list (date * float) :=
  filter (fun c => notna (snd c)) l.

Definition taiex_returns (adj_close : Prices) : list (date * float) :=
  dropna_cells (pct_change adj_close).

(** Prices rebuilt from a first price and the daily returns after it. *)
Fixpoint compound (p : R) (rets : list (date * float)) : Prices :=
  match rets with
  | [] => []
  | (d, Fin r) :: t => (d, p * (1 + r)) :: compound (p * (1 + r)) t
  | (d, _) :: t => compound p t
  end.

(** ** The rest of [main]

    The log [strategy_pnl.csv] is the list of its (date, ret) rows; a log
    that was read back is the log that was written. *)

Definition Log : Type := Series.

(** [pnl_df["date"].min()] and [.max()] of a log with first date [d]. *)
Definition min_date (d : date) (rest : list date) : date :=
  fold_left Z.min rest d.

Definition max_date (d : date) (rest : list date) : date :=
  fold_left Z.max rest d.

(** Lines 74-75: the first day asked of the provider, and the day after
    the last one. *)
Definition fetch_range (d : date) (rest : list date) : date * date :=
  (min_date d rest, (max_date d rest + 1)%Z).

(** [.cumsum()] of a column without missing cells. *)
Fixpoint cumsum_from (acc : R) (l : list R) : list R :=
  match l with
  | [] => []
  | x :: t => (acc + x) :: cumsum_from (acc + x) t
  end.

Definition cumsum (l : list R) : list R := cumsum_from 0 l.

(** Lines 99-100: the two cumulated return curves, by date. *)
Definition perf (metrics : table) : list (date * R * R) :=
  combine (combine (map r_date metrics) (cumsum (map ret metrics)))
          (cumsum (map twii_ret metrics)).

(** What the user did on the page before this run of the script. *)
Record Widgets : Type := mkWidgets {
  uploaded : option Log;
  add_clicked : bool;
  new_date : date;
  new_ret : R
}.

(** How a run of [main] ends. *)
Inductive Page : Type :=
| Overwritten                       (* line 46, then st.stop() *)
| Recorded                          (* line 66, then st.stop() *)
| NoData                            (* line 70, then return *)
| Dashboard (s : Snapshot) (metrics : table) (curves : list (date * R * R))
| Failed (e : exn).

(** [main], lines 42-101: the log on disk before the run ([None]: no
    file), the widgets and the provider of benchmark returns give the log
    on disk after the run and the page shown. *)
Definition main (fetch : date -> date -> Series) (csv : option Log)
           (w : Widgets) : option Log * Page :=
  match uploaded w with
  | Some df => (Some df, Overwritten)
  | None =>
      let pnl_df := match csv with Some l => l | None => [] end in
      if add_clicked w
      then (Some (pnl_df ++ [(new_date w, Some (new_ret w))]), Recorded)
      else
        match pnl_df with
        | [] => (csv, NoData)
        | (d, _) :: rest =>
            let range := fetch_range d (index rest) in
            let twii_ret := fetch (fst range) (snd range) in
            match calc_metrics pnl_df twii_ret with
            | Raise e => (csv, Failed e)
            | Ok metrics =>
                match snapshot metrics with
                | Raise e => (csv, Failed e)
                | Ok s => (csv, Dashboard s metrics (perf metrics))
                end
            end
        end
  end.

(** The aligned rows with the two return columns exchanged. *)
Definition exchange (m : list aligned_row) : list aligned_row :=
  map (fun r => (fst (fst r), snd r, snd (fst r))) m.


(** The aligned rows with the strategy return [x] replaced by [a * x + c]. *)
Definition rescale (a c : R) (m : list aligned_row) : list aligned_row :=
  map (fun r => (fst (fst r), a * snd (fst r) + c, snd r)) m.

(** ** Notions the statements below use *)

(** Strictly ascending dates. *)
Definition ascending (l : list date) : Prop := StronglySorted Z.lt l.

Definition dates (m : list aligned_row) : list date :=
  map (fun r => fst (fst r)) m.

(** The rows of the two series looked up by label along [idx], complete
    rows only: what [merge] returns when no label is repeated. *)
Definition join_on (s b : Series) (idx : list date) : list aligned_row :=
  dropna (map (fun d => (d, get s d, get b d)) idx).

(** ** Sample inputs *)

(** Day [k] of a sample benchmark returns [k / 1000]. *)
Definition day_return (k : nat) : R := INR k / 1000.

(** [n] aligned trading days, the two returns of day [k] given by [f], [g]. *)
Definition sample (f g : nat -> R) (n : nat) : list aligned_row :=
  map (fun k => (Z.of_nat k, f k, g k)) (seq 0 n).

(** Sixty days on which the strategy returns what the benchmark returns. *)
Definition tracking60 : list aligned_row := sample day_return day_return 60.

(** Sixty days on which the strategy returns the opposite of the benchmark. *)
Definition mirror60 : list aligned_row :=
  sample (fun k => - day_return k) day_return 60.

(** Sixty days of a benchmark that does not move. *)
Definition flat60 : list aligned_row := sample day_return (fun _ => 0) 60.

(** The same as input series of [calc_metrics]. *)
Definition series_of (f : nat -> R) (n : nat) : Series :=
  map (fun k => (Z.of_nat k, Some (f k))) (seq 0 n).

(** A log with an empty return on day 1, rows not in date order, and a
    benchmark over the same labels. *)
Definition gappy_strategy : Series :=
  [(3%Z, Some (1 / 100)); (1%Z, None); (2%Z, Some (2 / 100))].
Definition gappy_benchmark : Series :=
  [(3%Z, Some (3 / 100)); (1%Z, Some (4 / 100)); (2%Z, Some (5 / 100))].

(** One trading day. *)
Definition one_day_strategy : Series := [(1%Z, Some (1 / 100))].
Definition one_day_benchmark : Series := [(1%Z, Some (2 / 100))].

(** Two entries for the same day in each series. *)
Definition twice_strategy : Series :=
  [(1%Z, Some (1 / 100)); (1%Z, Some (2 / 100))].
Definition twice_benchmark : Series :=
  [(1%Z, Some (3 / 100)); (1%Z, Some (4 / 100))].

(** Two days, stored latest first, and the same rows in date order. *)
Definition latest_first_strategy : Series :=
  [(2%Z, Some (1 / 100)); (1%Z, Some (2 / 100))].
Definition latest_first_benchmark : Series :=
  [(2%Z, Some (3 / 100)); (1%Z, Some (4 / 100))].
Definition dated_strategy : Series :=
  [(1%Z, Some (2 / 100)); (2%Z, Some (1 / 100))].
Definition dated_benchmark : Series :=
  [(1%Z, Some (4 / 100)); (2%Z, Some (3 / 100))].
Definition three_day_benchmark : Series :=
  [(1%Z, Some (4 / 100)); (2%Z, Some (3 / 100)); (3%Z, Some (5 / 100))].

(** A benchmark that shares no day with [one_day_strategy]. *)
Definition other_day_benchmark : Series := [(2%Z, Some (2 / 100))].

(** * Properties *)

(** ** Sums of reals *)

Section Sums.
Context {A : Type}.
Implicit Types (f g : A -> R) (l : list A).


Lemma rsum_map_scale (c : R) f l :
  rsum (map (fun a => c * f a) l) = c * rsum (map f l).
Proof. induction l as [|a l IH]; simpl; [lra | rewrite IH; lra]. Qed.


Lemma rsum_map_ext f g l :
  (forall a, In a l -> f a = g a) -> rsum (map f l) = rsum (map g l).
Proof.
  induction l as [|a l IH]; intros H; simpl; [reflexivity|].
  rewrite (H a (or_introl eq_refl)), IH; [reflexivity|].
  intros b Hb. apply H. now right.
Qed.

Lemma rsum_squares_nonneg f l : 0 <= rsum (map (fun a => f a * f a) l).
Proof.
  induction l as [|a l IH]; simpl; [lra|].
  pose proof (Rle_0_sqr (f a)) as H. unfold Rsqr in H. lra.
Qed.

Lemma rsum_squares_zero f l :
  rsum (map (fun a => f a * f a) l) = 0 -> forall a, In a l -> f a = 0.
Proof.
  induction l as [|a l IH]; simpl; intros H b Hb; [contradiction|].
  pose proof (Rle_0_sqr (f a)) as Ha. unfold Rsqr in Ha.
  pose proof (rsum_squares_nonneg f l) as Hl.
  destruct Hb as [<-|Hb].
  - assert (f a * f a = 0) as H0 by lra.
    apply Rmult_integral in H0. tauto.
  - apply IH; [lra | exact Hb].
Qed.

(** The sum of [(f t + g)^2] as a quadratic in [t]. *)
Lemma rsum_quadratic f g l (t : R) :
  rsum (map (fun a => (f a * t + g a) * (f a * t + g a)) l)
  = rsum (map (fun a => f a * f a) l) * (t * t)
    + 2 * rsum (map (fun a => f a * g a) l) * t
    + rsum (map (fun a => g a * g a) l).
Proof. induction l as [|a l IH]; simpl; [lra | rewrite IH; lra]. Qed.

Lemma discriminant (a b c : R) :
  0 <= a -> (forall t, 0 <= a * (t * t) + 2 * b * t + c) -> b * b <= a * c.
Proof.
  intros Ha H.
  destruct (Req_dec_T a 0) as [E|E].
  - subst a. destruct (Req_dec_T b 0) as [Eb|Eb]; [subst b; lra|].
    exfalso. specialize (H (- (c + 1) / (2 * b))).
    replace (0 * (- (c + 1) / (2 * b) * (- (c + 1) / (2 * b)))
             + 2 * b * (- (c + 1) / (2 * b)) + c) with (-1) in H
      by (field; exact Eb).
    lra.
  - assert (0 < a) as Hpos by lra.
    specialize (H (- b / a)).
    replace (a * (- b / a * (- b / a)) + 2 * b * (- b / a) + c)
      with ((a * c - b * b) / a) in H by (field; exact E).
    assert (0 <= (a * c - b * b) / a * a) as H'
      by (apply Rmult_le_pos; lra).
    replace ((a * c - b * b) / a * a) with (a * c - b * b) in H'
      by (field; exact E).
    lra.
Qed.

(** Cauchy-Schwarz for finite sums. *)
Lemma cauchy_schwarz f g l :
  rsum (map (fun a => f a * g a) l) * rsum (map (fun a => f a * g a) l)
  <= rsum (map (fun a => f a * f a) l) * rsum (map (fun a => g a * g a) l).
Proof.
  apply discriminant; [apply rsum_squares_nonneg|].
  intros t. rewrite <- rsum_quadratic.
  apply (rsum_squares_nonneg (fun a => f a * t + g a)).
Qed.
End Sums.

(** ** One window *)

Section Window.
Variable win : list (R * R).
Hypothesis two_rows : (2 <= length win)%nat.

Lemma window_size : 2 <= INR (length win).
Proof. apply le_INR in two_rows. simpl in two_rows. lra. Qed.

Lemma length_xs : length (xs win) = length win.
Proof. apply length_map. Qed.

Lemma length_ys : length (ys win) = length win.
Proof. apply length_map. Qed.

Lemma rsum_xs : rsum (xs win) = INR (length win) * mean (xs win).
Proof.
  pose proof window_size. unfold mean. rewrite length_xs. field. lra.
Qed.

Lemma rsum_ys : rsum (ys win) = INR (length win) * mean (ys win).
Proof.
  pose proof window_size. unfold mean. rewrite length_ys. field. lra.
Qed.

Lemma ssd_xs :
  ssd (xs win)
  = rsum (map (fun p => (fst p - mean (xs win)) * (fst p - mean (xs win))) win).
Proof. unfold ssd at 1. unfold xs at 3. now rewrite map_map. Qed.

Lemma ssd_ys :
  ssd (ys win)
  = rsum (map (fun p => (snd p - mean (ys win)) * (snd p - mean (ys win))) win).
Proof. unfold ssd at 1. unfold ys at 3. now rewrite map_map. Qed.

Lemma cross_products (a b : R) (l : list (R * R)) :
  rsum (map (fun p => (fst p - a) * (snd p - b)) l)
  = rsum (map (fun p => fst p * snd p) l)
    - a * rsum (ys l) - b * rsum (xs l) + INR (length l) * (a * b).
Proof.
  induction l as [|p l IH]; [simpl; lra|].
  change (length (p :: l)) with (S (length l)). rewrite S_INR.
  simpl. rewrite IH. lra.
Qed.

(** pandas' covariance formula is the sum of cross products of deviations
    over [INR (length win) - 1]. *)
Lemma cov_scp : cov win = scp win / (INR (length win) - 1).
Proof.
  pose proof window_size.
  unfold scp. rewrite cross_products, rsum_xs, rsum_ys.
  unfold cov, mean at 1. rewrite length_map.
  field. split; lra.
Qed.

Lemma var_xs : var (xs win) = ssd (xs win) / (INR (length win) - 1).
Proof. unfold var. now rewrite length_xs. Qed.

Lemma var_ys : var (ys win) = ssd (ys win) / (INR (length win) - 1).
Proof. unfold var. now rewrite length_ys. Qed.

Lemma ssd_xs_nonneg : 0 <= ssd (xs win).
Proof. rewrite ssd_xs. apply (rsum_squares_nonneg (fun p => fst p - _)). Qed.

Lemma ssd_ys_nonneg : 0 <= ssd (ys win).
Proof. rewrite ssd_ys. apply (rsum_squares_nonneg (fun p => snd p - _)). Qed.

Lemma var_xs_nonneg : 0 <= var (xs win).
Proof.
  pose proof window_size. pose proof ssd_xs_nonneg.
  rewrite var_xs. apply Rmult_le_pos; [lra|].
  apply Rlt_le, Rinv_0_lt_compat. lra.
Qed.

Lemma var_ys_nonneg : 0 <= var (ys win).
Proof.
  pose proof window_size. pose proof ssd_ys_nonneg.
  rewrite var_ys. apply Rmult_le_pos; [lra|].
  apply Rlt_le, Rinv_0_lt_compat. lra.
Qed.

Lemma scp_bound : scp win * scp win <= ssd (xs win) * ssd (ys win).
Proof.
  rewrite ssd_xs, ssd_ys. unfold scp.
  apply (cauchy_schwarz (fun p => fst p - mean (xs win))
                        (fun p => snd p - mean (ys win))).
Qed.

Lemma cov_bound : cov win * cov win <= var (xs win) * var (ys win).
Proof.
  pose proof window_size as Hn. pose proof scp_bound as Hs.
  rewrite cov_scp, var_xs, var_ys.
  replace (scp win / (INR (length win) - 1) * (scp win / (INR (length win) - 1)))
    with (scp win * scp win * (/ (INR (length win) - 1) * / (INR (length win) - 1))) by (field; lra).
  replace (ssd (xs win) / (INR (length win) - 1) * (ssd (ys win) / (INR (length win) - 1)))
    with (ssd (xs win) * ssd (ys win) * (/ (INR (length win) - 1) * / (INR (length win) - 1)))
    by (field; lra).
  apply Rmult_le_compat_r; [|exact Hs].
  assert (0 < / (INR (length win) - 1)) by (apply Rinv_0_lt_compat; lra).
  apply Rlt_le, Rmult_lt_0_compat; assumption.
Qed.

Lemma var_ys_zero_const :
  var (ys win) = 0 -> forall p, In p win -> snd p = mean (ys win).
Proof.
  pose proof window_size as Hn. intros H p Hp.
  rewrite var_ys in H.
  assert (ssd (ys win) = 0) as H0.
  { replace (ssd (ys win)) with (ssd (ys win) / (INR (length win) - 1) * (INR (length win) - 1))
      by (field; lra). rewrite H. lra. }
  rewrite ssd_ys in H0.
  pose proof (rsum_squares_zero (fun p => snd p - mean (ys win)) win H0 p Hp).
  simpl in *. lra.
Qed.

Lemma var_xs_zero_const :
  var (xs win) = 0 -> forall p, In p win -> fst p = mean (xs win).
Proof.
  pose proof window_size as Hn. intros H p Hp.
  rewrite var_xs in H.
  assert (ssd (xs win) = 0) as H0.
  { replace (ssd (xs win)) with (ssd (xs win) / (INR (length win) - 1) * (INR (length win) - 1))
      by (field; lra). rewrite H. lra. }
  rewrite ssd_xs in H0.
  pose proof (rsum_squares_zero (fun p => fst p - mean (xs win)) win H0 p Hp).
  simpl in *. lra.
Qed.

(** A flat benchmark window has covariance zero with anything. *)
Lemma cov_zero_of_var_ys_zero : var (ys win) = 0 -> cov win = 0.
Proof.
  intros H. pose proof cov_bound as Hb. rewrite H, Rmult_0_r in Hb.
  pose proof (Rle_0_sqr (cov win)) as Hs. unfold Rsqr in Hs.
  assert (cov win * cov win = 0) as H0 by lra.
  apply Rmult_integral in H0. tauto.
Qed.

Lemma cov_zero_of_var_xs_zero : var (xs win) = 0 -> cov win = 0.
Proof.
  intros H. pose proof cov_bound as Hb. rewrite H, Rmult_0_l in Hb.
  pose proof (Rle_0_sqr (cov win)) as Hs. unfold Rsqr in Hs.
  assert (cov win * cov win = 0) as H0 by lra.
  apply Rmult_integral in H0. tauto.
Qed.

Lemma corr_denominator_nonneg : 0 <= corr_denominator win.
Proof. apply sqrt_pos. Qed.

Lemma corr_denominator_sqr :
  corr_denominator win * corr_denominator win = var (xs win) * var (ys win).
Proof.
  apply sqrt_sqrt. apply Rmult_le_pos; [apply var_xs_nonneg | apply var_ys_nonneg].
Qed.

Lemma window_beta_flat : var (ys win) = 0 -> window_beta win = NaN.
Proof.
  intros H. unfold window_beta, fdiv.
  rewrite (cov_zero_of_var_ys_zero H), H.
  destruct (Req_dec_T 0 0) as [_|E]; [reflexivity | now elim E].
Qed.

Lemma window_beta_defined :
  var (ys win) <> 0 -> window_beta win = Fin (cov win / var (ys win)).
Proof.
  intros H. unfold window_beta, fdiv.
  destruct (Req_dec_T (var (ys win)) 0) as [E|_]; [now elim H | reflexivity].
Qed.

Lemma window_corr_undefined :
  corr_denominator win = 0 -> window_corr win = NaN.
Proof.
  intros H. unfold window_corr, fdiv. rewrite H.
  pose proof corr_denominator_sqr as Hs. rewrite H, Rmult_0_l in Hs.
  symmetry in Hs. apply Rmult_integral in Hs.
  assert (cov win = 0) as ->
    by (destruct Hs; [now apply cov_zero_of_var_xs_zero
                     | now apply cov_zero_of_var_ys_zero]).
  destruct (Req_dec_T 0 0) as [_|E]; [reflexivity | now elim E].
Qed.

Lemma window_corr_defined :
  corr_denominator win <> 0 ->
  window_corr win = Fin (cov win / corr_denominator win).
Proof.
  intros H. unfold window_corr, fdiv.
  destruct (Req_dec_T (corr_denominator win) 0) as [E|_];
    [now elim H | reflexivity].
Qed.

Lemma corr_ratio_bounds :
  corr_denominator win <> 0 ->
  -1 <= cov win / corr_denominator win <= 1.
Proof.
  intros H. pose proof corr_denominator_nonneg as Hd.
  pose proof cov_bound as Hb. rewrite <- corr_denominator_sqr in Hb.
  set (d := corr_denominator win) in *. set (c := cov win) in *.
  assert (0 < d) as Hpos by lra.
  assert (- d <= c <= d) as [Hl Hu] by (split; nra).
  split.
  - apply (Rmult_le_reg_r d); [exact Hpos|].
    replace (c / d * d) with c by (field; lra). lra.
  - apply (Rmult_le_reg_r d); [exact Hpos|].
    replace (c / d * d) with c by (field; lra). lra.
Qed.

(** The window correlation is NaN or a number of [[-1, 1]]. *)
Lemma window_corr_range :
  window_corr win = NaN
  \/ exists c, window_corr win = Fin c /\ -1 <= c <= 1.
Proof.
  destruct (Req_dec_T (corr_denominator win) 0) as [E|E].
  - left. now apply window_corr_undefined.
  - right. exists (cov win / corr_denominator win).
    split; [now apply window_corr_defined | now apply corr_ratio_bounds].
Qed.

Lemma window_beta_range :
  window_beta win = NaN \/ exists b, window_beta win = Fin b.
Proof.
  destruct (Req_dec_T (var (ys win)) 0) as [E|E].
  - left. now apply window_beta_flat.
  - right. eexists. now apply window_beta_defined.
Qed.

Lemma corr_denominator_split :
  corr_denominator win = sqrt (var (xs win)) * sqrt (var (ys win)).
Proof.
  unfold corr_denominator.
  apply sqrt_mult; [apply var_xs_nonneg | apply var_ys_nonneg].
Qed.

(** beta = correlation * sd(strategy) / sd(benchmark). *)
Lemma window_beta_corr :
  var (xs win) <> 0 -> var (ys win) <> 0 ->
  exists c b,
    window_corr win = Fin c /\ window_beta win = Fin b
    /\ b = c * (sqrt (var (xs win)) / sqrt (var (ys win))).
Proof.
  intros Hx Hy.
  pose proof var_xs_nonneg as Hxn. pose proof var_ys_nonneg as Hyn.
  assert (0 < sqrt (var (xs win))) as Hsx by (apply sqrt_lt_R0; lra).
  assert (0 < sqrt (var (ys win))) as Hsy by (apply sqrt_lt_R0; lra).
  assert (corr_denominator win <> 0) as Hd.
  { rewrite corr_denominator_split. apply Rmult_integral_contrapositive. lra. }
  exists (cov win / corr_denominator win), (cov win / var (ys win)).
  split; [now apply window_corr_defined|].
  split; [now apply window_beta_defined|].
  rewrite corr_denominator_split.
  rewrite <- (sqrt_sqrt (var (ys win)) Hyn) at 1.
  field. lra.
Qed.
End Window.


(** ** The rolling columns, row by row *)

Lemma nth_error_combine {A B : Type} (l : list A) (l' : list B) (i : nat) :
  nth_error (combine l l') i
  = match nth_error l i, nth_error l' i with
    | Some a, Some b => Some (a, b)
    | _, _ => None
    end.
Proof.
  revert l' i.
  induction l as [|a l IH]; intros [|b l'] [|i]; simpl; auto;
    now destruct (nth_error l i).
Qed.

Lemma rolling_length {A : Type} (w : nat) (agg : list A -> float) (l : list A) :
  length (rolling w agg l) = length l.
Proof. unfold rolling. now rewrite length_map, length_seq. Qed.

Lemma rolling_nth {A : Type} (w : nat) (agg : list A -> float) (l : list A) (i : nat) :
  (i < length l)%nat ->
  nth_error (rolling w agg l) i
  = Some (if (w <=? i + 1)%nat then agg (window_at w l i) else NaN).
Proof.
  intros Hi. unfold rolling. rewrite nth_error_map, nth_error_seq.
  apply Nat.ltb_lt in Hi. rewrite Hi. reflexivity.
Qed.

Lemma returns_length (m : list aligned_row) : length (returns m) = length m.
Proof. apply length_map. Qed.

Lemma rolling_metrics_length (w : nat) (m : list aligned_row) :
  length (rolling_metrics_w w m) = length m.
Proof.
  unfold rolling_metrics_w, add_columns, div_columns, rolling_corr,
    rolling_cov, rolling_var.
  rewrite length_map, !length_combine, length_map, length_combine,
    !rolling_length, returns_length.
  lia.
Qed.

(** Row [i] of the metrics table: the aligned row, and the two statistics
    of the trailing window once [w] observations are there. *)
Lemma rolling_metrics_nth (w : nat) (m : list aligned_row) (i : nat)
      (d : date) (x y : R) :
  nth_error m i = Some (d, x, y) ->
  nth_error (rolling_metrics_w w m) i
  = Some (mkRow d x y
            (if (w <=? i + 1)%nat
             then window_corr (window_at w (returns m) i) else NaN)
            (if (w <=? i + 1)%nat
             then window_beta (window_at w (returns m) i) else NaN)).
Proof.
  intros Hm.
  assert (i < length (returns m))%nat as Hi.
  { rewrite returns_length. apply nth_error_Some. congruence. }
  unfold rolling_metrics_w, add_columns, div_columns, rolling_corr,
    rolling_cov, rolling_var.
  unfold aligned_row in *.
  rewrite nth_error_map, !nth_error_combine, Hm, nth_error_map,
    nth_error_combine, !rolling_nth by exact Hi.
  simpl. destruct (w <=? i + 1)%nat; reflexivity.
Qed.

Lemma rolling_metrics_row (w : nat) (m : list aligned_row) (i : nat) (r : row) :
  nth_error (rolling_metrics_w w m) i = Some r ->
  nth_error m i = Some (r_date r, ret r, twii_ret r)
  /\ corr r = (if (w <=? i + 1)%nat
               then window_corr (window_at w (returns m) i) else NaN)
  /\ beta r = (if (w <=? i + 1)%nat
               then window_beta (window_at w (returns m) i) else NaN).
Proof.
  intros Hr.
  assert (i < length m)%nat as Hi.
  { rewrite <- (rolling_metrics_length w). apply nth_error_Some. congruence. }
  destruct (nth_error m i) as [[[d x] y]|] eqn:Hm.
  - rewrite (rolling_metrics_nth w m i d x y Hm) in Hr.
    injection Hr as <-. simpl. auto.
  - apply nth_error_None in Hm. lia.
Qed.

Lemma window_at_length {A : Type} (w : nat) (l : list A) (i : nat) :
  (w <= i + 1)%nat -> (i < length l)%nat -> length (window_at w l i) = w.
Proof.
  intros Hw Hi. unfold window_at. rewrite length_firstn, length_skipn. lia.
Qed.

Lemma window_at_full {A : Type} (l : list A) :
  l <> [] -> window_at (length l) l (length l - 1) = l.
Proof.
  intros H. unfold window_at.
  assert (0 < length l)%nat by (destruct l; [congruence | simpl; lia]).
  replace (length l - 1 + 1 - length l)%nat with 0%nat by lia.
  simpl. apply firstn_all.
Qed.

(** ** Sorting and uniting date indexes *)

Lemma insert_date_perm (d : date) (l : list date) :
  Permutation (insert_date d l) (d :: l).
Proof.
  induction l as [|h t IH]; simpl; [reflexivity|].
  destruct (d <=? h)%Z; [reflexivity|].
  rewrite IH. apply perm_swap.
Qed.

Lemma sort_dates_perm (l : list date) : Permutation (sort_dates l) l.
Proof.
  induction l as [|h t IH]; simpl; [reflexivity|].
  rewrite insert_date_perm. now constructor.
Qed.

Lemma In_sort_dates (d : date) (l : list date) :
  In d (sort_dates l) <-> In d l.
Proof.
  split; apply Permutation_in;
    [apply sort_dates_perm | symmetry; apply sort_dates_perm].
Qed.

Lemma insert_date_sorted (d : date) (l : list date) :
  StronglySorted Z.le l -> StronglySorted Z.le (insert_date d l).
Proof.
  induction 1 as [|h t Ht IH Hh]; simpl.
  - repeat constructor.
  - destruct (d <=? h)%Z eqn:E.
    + apply Z.leb_le in E. constructor; [now constructor|].
      constructor; [exact E|].
      eapply Forall_impl; [|exact Hh]. intros; simpl in *; lia.
    + apply Z.leb_gt in E. constructor; [exact IH|].
      apply Forall_forall. intros x Hx.
      apply (Permutation_in _ (insert_date_perm d t)) in Hx.
      destruct Hx as [<-|Hx]; [lia|].
      rewrite Forall_forall in Hh. now apply Hh.
Qed.

Lemma sort_dates_sorted (l : list date) : StronglySorted Z.le (sort_dates l).
Proof.
  induction l as [|h t IH]; simpl; [constructor | now apply insert_date_sorted].
Qed.

Lemma sorted_nodup_ascending (l : list date) :
  StronglySorted Z.le l -> NoDup l -> ascending l.
Proof.
  induction 1 as [|h t Ht IH Hh]; intros Hnd; [constructor|].
  inversion Hnd as [|? ? Hnotin Hnd']; subst.
  constructor; [now apply IH|].
  rewrite Forall_forall in *. intros x Hx.
  specialize (Hh x Hx). assert (x <> h) by (intros ->; contradiction). lia.
Qed.

Lemma sort_dates_ascending (l : list date) :
  NoDup l -> ascending (sort_dates l).
Proof.
  intros H. apply sorted_nodup_ascending; [apply sort_dates_sorted|].
  eapply Permutation_NoDup; [symmetry; apply sort_dates_perm | exact H].
Qed.

Lemma ascending_nodup (l : list date) : ascending l -> NoDup l.
Proof.
  induction 1 as [|h t Ht IH Hh]; constructor; [|exact IH].
  intros Hin. rewrite Forall_forall in Hh. specialize (Hh h Hin). lia.
Qed.

(** Two ascending lists with the same elements are the same list. *)
Lemma ascending_unique (l1 l2 : list date) :
  ascending l1 -> ascending l2 ->
  (forall d, In d l1 <-> In d l2) -> l1 = l2.
Proof.
  intros H1. revert l2.
  induction H1 as [|h1 t1 Ht1 IH Hh1]; intros l2 H2 Hin.
  - destruct l2 as [|h2 t2]; [reflexivity|].
    exfalso. apply (Hin h2). now left.
  - destruct H2 as [|h2 t2 Ht2 Hh2].
    + exfalso. apply (Hin h1). now left.
    + rewrite Forall_forall in Hh1, Hh2.
      assert (h1 = h2) as ->.
      { destruct (proj1 (Hin h1) (or_introl eq_refl)) as [E|E]; [now symmetry|].
        destruct (proj2 (Hin h2) (or_introl eq_refl)) as [E'|E']; [exact E'|].
        specialize (Hh1 _ E'). specialize (Hh2 _ E). lia. }
      f_equal. apply IH; [exact Ht2|].
      intros d. split; intros Hd.
      * destruct (proj1 (Hin d) (or_intror Hd)) as [E|E]; [|exact E].
        specialize (Hh1 _ Hd). lia.
      * destruct (proj2 (Hin d) (or_intror Hd)) as [E|E]; [|exact E].
        specialize (Hh2 _ Hd). lia.
Qed.

Lemma In_remove1 (d x : date) (l : list date) :
  In d (remove1 x l) -> In d l.
Proof.
  induction l as [|h t IH]; simpl; [tauto|].
  destruct (Z.eq_dec x h); simpl; tauto.
Qed.

Lemma In_remove1_other (d x : date) (l : list date) :
  In d l -> d <> x -> In d (remove1 x l).
Proof.
  induction l as [|h t IH]; simpl; [tauto|].
  intros H Hne. destruct (Z.eq_dec x h) as [E|E].
  - subst h. destruct H as [H|H]; [congruence | exact H].
  - simpl. destruct H as [H|H]; [now left | right; now apply IH].
Qed.

Lemma remove1_nodup (x : date) (l : list date) :
  NoDup l -> NoDup (remove1 x l) /\ ~ In x (remove1 x l).
Proof.
  induction 1 as [|h t Hnotin Hnd [IH1 IH2]]; simpl; [split; [constructor|tauto]|].
  destruct (Z.eq_dec x h) as [->|E]; [split; assumption|].
  split.
  - constructor; [|exact IH1]. intros Hin. apply Hnotin. eapply In_remove1, Hin.
  - simpl. intros [H|H]; [congruence | contradiction].
Qed.

Lemma In_msub (d : date) (l1 l2 : list date) : In d (msub l2 l1) -> In d l2.
Proof.
  unfold msub. revert l2.
  induction l1 as [|h t IH]; simpl; intros l2 H; [exact H|].
  eapply In_remove1, IH, H.
Qed.

Lemma In_msub_fresh (d : date) (l1 l2 : list date) :
  In d l2 -> ~ In d l1 -> In d (msub l2 l1).
Proof.
  unfold msub. revert l2.
  induction l1 as [|h t IH]; simpl; intros l2 H Hn; [exact H|].
  apply IH; [|tauto]. apply In_remove1_other; [exact H | intros ->; tauto].
Qed.

Lemma msub_nodup (l1 l2 : list date) :
  NoDup l2 -> NoDup (msub l2 l1) /\ forall d, In d (msub l2 l1) -> ~ In d l1.
Proof.
  unfold msub. revert l2.
  induction l1 as [|h t IH]; simpl; intros l2 H; [split; [exact H | tauto]|].
  destruct (remove1_nodup h l2 H) as [Hnd Hh].
  destruct (IH _ Hnd) as [IH1 IH2]. split; [exact IH1|].
  intros d Hd [<-|Hin]; [|now apply (IH2 d)].
  apply Hh. fold (msub (remove1 h l2) t) in Hd. eapply In_msub, Hd.
Qed.

Lemma In_union_index (d : date) (l1 l2 : list date) :
  In d (union_index l1 l2) <-> In d l1 \/ In d l2.
Proof.
  unfold union_index.
  destruct (list_eq_dec Z.eq_dec l1 l2) as [->|_]; [tauto|].
  destruct l2 as [|h2 t2]; [simpl; tauto|].
  destruct l1 as [|h1 t1]; [simpl; tauto|].
  rewrite In_sort_dates, in_app_iff. split.
  - intros [H|H]; [now left | right; eapply In_msub, H].
  - intros [H|H]; [now left|].
    destruct (in_dec Z.eq_dec d (h1 :: t1)) as [Hin|Hn]; [now left|].
    right. now apply In_msub_fresh.
Qed.

Lemma union_index_ascending (l1 l2 : list date) :
  NoDup l1 -> NoDup l2 -> l1 <> [] -> l2 <> [] ->
  l1 <> l2 \/ ascending l1 ->
  ascending (union_index l1 l2).
Proof.
  intros H1 H2 N1 N2 Hor. unfold union_index.
  destruct (list_eq_dec Z.eq_dec l1 l2) as [E|_].
  - destruct Hor as [Hne|Hasc]; [contradiction | exact Hasc].
  - destruct l2 as [|h2 t2]; [contradiction|].
    destruct l1 as [|h1 t1]; [contradiction|].
    apply sort_dates_ascending.
    destruct (msub_nodup (h1 :: t1) (h2 :: t2) H2) as [Hnd Hfresh].
    apply NoDup_app; [exact H1 | exact Hnd|].
    intros d Hd Hd'. exact (Hfresh d Hd' Hd).
Qed.

(** ** Looking labels up, and the joined frame *)

Lemma get_In (s : Series) (d : date) (x : R) :
  get s d = Some x -> In (d, Some x) s.
Proof.
  unfold get.
  destruct (find (fun p => (fst p =? d)%Z) s) as [[d' v]|] eqn:E; [|discriminate].
  intros ->. apply find_some in E. destruct E as [Hin Heq].
  simpl in Heq. apply Z.eqb_eq in Heq. now subst d'.
Qed.

Lemma get_unique (s : Series) (d : date) (v : option R) :
  NoDup (index s) -> In (d, v) s -> get s d = v.
Proof.
  unfold get, index. induction s as [|[d' v'] t IH]; simpl; [tauto|].
  intros Hnd Hin. inversion Hnd as [|? ? Hnotin Hnd']; subst.
  destruct (d' =? d)%Z eqn:E.
  - apply Z.eqb_eq in E. subst d'.
    destruct Hin as [Heq|Hin]; [congruence|].
    exfalso. apply Hnotin. change d with (fst (d, v)). now apply in_map.
  - apply Z.eqb_neq in E.
    destruct Hin as [Heq|Hin]; [congruence | now apply IH].
Qed.

Lemma get_absent (s : Series) (d : date) : ~ In d (index s) -> get s d = None.
Proof.
  intros H. unfold get.
  destruct (find (fun p => (fst p =? d)%Z) s) as [[d' v]|] eqn:E; [|reflexivity].
  apply find_some in E. destruct E as [Hin Heq]. simpl in Heq.
  apply Z.eqb_eq in Heq. subst d'. exfalso. apply H.
  change d with (fst (d, v)). now apply in_map.
Qed.

Lemma Permutation_index (s s' : Series) :
  Permutation s s' -> Permutation (index s) (index s').
Proof. apply Permutation_map. Qed.

(** With unique labels a lookup does not depend on the order of the rows. *)
Lemma get_perm (s s' : Series) (d : date) :
  NoDup (index s) -> Permutation s s' -> get s d = get s' d.
Proof.
  intros Hnd Hp.
  assert (NoDup (index s')) as Hnd'
    by exact (Permutation_NoDup (Permutation_index s s' Hp) Hnd).
  destruct (in_dec Z.eq_dec d (index s)) as [Hin|Hn].
  - unfold index in Hin. apply in_map_iff in Hin.
    destruct Hin as [[d' v] [Hd Hin]]. simpl in Hd. subst d'.
    rewrite (get_unique s d v Hnd Hin).
    symmetry. apply get_unique; [exact Hnd'|].
    eapply Permutation_in; eassumption.
  - rewrite (get_absent s d Hn). symmetry. apply get_absent.
    intros Hin. apply Hn.
    exact (Permutation_in d (Permutation_sym (Permutation_index s s' Hp)) Hin).
Qed.

Lemma get_along_index (s : Series) :
  NoDup (index s) -> map (get s) (index s) = values s.
Proof.
  intros Hnd. unfold index, values. rewrite map_map.
  apply map_ext_in. intros [d v] Hin. simpl. now apply get_unique.
Qed.

Lemma reindex_unique (s : Series) (idx : list date) :
  NoDup (index s) -> reindex s idx = Ok (map (get s) idx).
Proof.
  intros Hnd. unfold reindex.
  destruct (list_eq_dec Z.eq_dec (index s) idx) as [<-|_].
  - now rewrite get_along_index.
  - destruct (NoDup_dec Z.eq_dec (index s)) as [_|Hn];
      [reflexivity | contradiction].
Qed.

Lemma combine_lookups {B C : Type} (f : date -> B) (g : date -> C)
      (idx : list date) :
  combine (combine idx (map f idx)) (map g idx)
  = map (fun d => (d, f d, g d)) idx.
Proof. induction idx as [|d t IH]; simpl; [reflexivity | now rewrite IH]. Qed.

(** Line 22 for series without a repeated date. *)
Lemma merge_unique (s b : Series) :
  NoDup (index s) -> NoDup (index b) ->
  merge s b = Ok (join_on s b (union_index (index s) (index b))).
Proof.
  intros Hs Hb. unfold merge, concat_axis1, join_on.
  rewrite (reindex_unique s _ Hs), (reindex_unique b _ Hb). simpl.
  now rewrite combine_lookups.
Qed.

Lemma union_index_same (l : list date) : union_index l l = l.
Proof.
  unfold union_index.
  destruct (list_eq_dec Z.eq_dec l l) as [_|N]; [reflexivity | now elim N].
Qed.

Lemma reindex_same (s : Series) : reindex s (index s) = Ok (values s).
Proof.
  unfold reindex.
  destruct (list_eq_dec Z.eq_dec (index s) (index s)) as [_|N];
    [reflexivity | now elim N].
Qed.

(** Line 22 for two series over the same labels: the rows are paired by
    position, whatever the labels are. *)
Lemma merge_same_index (s b : Series) :
  index s = index b ->
  merge s b = Ok (dropna (combine (combine (index s) (values s)) (values b))).
Proof.
  intros E. unfold merge, concat_axis1.
  rewrite <- E, union_index_same. cbv zeta.
  rewrite reindex_same. replace (reindex b (index s)) with (Ok (values b))
    by (rewrite E; symmetry; apply reindex_same).
  reflexivity.
Qed.

Lemma In_join_on (s b : Series) (idx : list date) (d : date) (x y : R) :
  In (d, x, y) (join_on s b idx)
  <-> In d idx /\ get s d = Some x /\ get b d = Some y.
Proof.
  unfold join_on. induction idx as [|h t IH]; simpl; [tauto|].
  assert (forall rest : list aligned_row,
             In (d, x, y) rest <-> In d t /\ get s d = Some x /\ get b d = Some y ->
             get s h = None \/ get b h = None ->
             (In (d, x, y) rest
              <-> (h = d \/ In d t) /\ get s d = Some x /\ get b d = Some y))
    as Hskip.
  { intros rest Hrest Hnone. rewrite Hrest. split; [tauto|].
    intros [[->|Hin] [Hx Hy]]; [|tauto].
    destruct Hnone; congruence. }
  destruct (get s h) as [u|] eqn:Es; destruct (get b h) as [v|] eqn:Eb;
    try (apply Hskip; [exact IH | auto]).
  simpl. rewrite IH. split.
  - intros [Heq|H]; [|tauto].
    injection Heq as -> -> ->. auto.
  - intros [[->|Hin] [Hx Hy]]; [|tauto].
    left. congruence.
Qed.

Lemma dates_join_on (s b : Series) (idx : list date) (d : date) :
  In d (dates (join_on s b idx)) -> In d idx.
Proof.
  unfold dates. rewrite in_map_iff. intros [[[d' x] y] [Hd Hin]].
  simpl in Hd. subst d'. now apply In_join_on in Hin.
Qed.

Lemma join_on_ascending (s b : Series) (idx : list date) :
  ascending idx -> ascending (dates (join_on s b idx)).
Proof.
  unfold ascending. induction 1 as [|h t Ht IH Hh]; [constructor|].
  unfold join_on in *. simpl.
  destruct (get s h) as [u|]; destruct (get b h) as [v|]; simpl; try exact IH.
  constructor; [exact IH|].
  rewrite Forall_forall in *. intros d Hd. apply Hh.
  eapply dates_join_on, Hd.
Qed.

Lemma join_on_no_strategy (b : Series) (idx : list date) :
  join_on [] b idx = [].
Proof. unfold join_on. induction idx as [|h t IH]; simpl; auto. Qed.

Lemma join_on_no_benchmark (s : Series) (idx : list date) :
  join_on s [] idx = [].
Proof.
  unfold join_on. induction idx as [|h t IH]; simpl; [reflexivity|].
  rewrite IH. now destruct (get s h).
Qed.

Lemma join_on_ext (s s' b b' : Series) (idx : list date) :
  (forall d, get s d = get s' d) -> (forall d, get b d = get b' d) ->
  join_on s b idx = join_on s' b' idx.
Proof.
  intros Hs Hb. unfold join_on. f_equal.
  apply map_ext. intros d. now rewrite Hs, Hb.
Qed.

(** ** A strategy that is a multiple of the benchmark *)

Section Scaled.
Variable win : list (R * R).
Variable a : R.
Hypothesis two_rows : (2 <= length win)%nat.
Hypothesis scaled : forall p, In p win -> fst p = a * snd p.
Hypothesis benchmark_moves : var (ys win) <> 0.
Hypothesis a_nonzero : a <> 0.

Lemma scaled_mean : mean (xs win) = a * mean (ys win).
Proof.
  unfold mean. rewrite length_xs, length_ys. unfold xs, ys.
  rewrite (rsum_map_ext fst (fun p => a * snd p) win scaled), rsum_map_scale.
  pose proof (window_size win two_rows). field. lra.
Qed.

Lemma scaled_scp : scp win = a * ssd (ys win).
Proof.
  rewrite ssd_ys, <- rsum_map_scale. unfold scp. rewrite scaled_mean.
  apply rsum_map_ext. intros p Hp. rewrite (scaled p Hp). ring.
Qed.

Lemma scaled_ssd : ssd (xs win) = a * a * ssd (ys win).
Proof.
  rewrite ssd_xs, ssd_ys, <- rsum_map_scale, scaled_mean.
  apply rsum_map_ext. intros p Hp. rewrite (scaled p Hp). ring.
Qed.

Lemma scaled_cov : cov win = a * var (ys win).
Proof.
  rewrite (cov_scp win two_rows), (var_ys win), scaled_scp.
  pose proof (window_size win two_rows). field. lra.
Qed.

Lemma scaled_var : var (xs win) = a * a * var (ys win).
Proof.
  rewrite (var_xs win), (var_ys win), scaled_ssd.
  pose proof (window_size win two_rows). field. lra.
Qed.

Lemma scaled_denominator : corr_denominator win = Rabs a * var (ys win).
Proof.
  pose proof (var_ys_nonneg win two_rows) as Hv.
  unfold corr_denominator. rewrite scaled_var.
  replace (a * a * var (ys win) * var (ys win))
    with ((Rabs a * var (ys win)) * (Rabs a * var (ys win))).
  - apply sqrt_square. apply Rmult_le_pos; [apply Rabs_pos | exact Hv].
  - replace (a * a) with (Rabs a * Rabs a); [ring|].
    pose proof (Rsqr_abs a) as H. unfold Rsqr in H. now rewrite <- H.
Qed.

Lemma scaled_beta : window_beta win = Fin a.
Proof.
  rewrite (window_beta_defined win benchmark_moves), scaled_cov.
  f_equal. field. exact benchmark_moves.
Qed.

Lemma scaled_corr : window_corr win = Fin (a / Rabs a).
Proof.
  assert (Rabs a <> 0) as Ha by (apply Rabs_no_R0; exact a_nonzero).
  assert (corr_denominator win <> 0) as Hd.
  { rewrite scaled_denominator. now apply Rmult_integral_contrapositive. }
  rewrite (window_corr_defined win Hd), scaled_denominator, scaled_cov.
  f_equal. field. split; assumption.
Qed.
End Scaled.

(** A window in which two benchmark returns differ has a nonzero variance. *)
Lemma var_ys_moves (win : list (R * R)) (p q : R * R) :
  (2 <= length win)%nat -> In p win -> In q win -> snd p <> snd q ->
  var (ys win) <> 0.
Proof.
  intros Hn Hp Hq Hne H0.
  pose proof (var_ys_zero_const win Hn H0 p Hp).
  pose proof (var_ys_zero_const win Hn H0 q Hq). congruence.
Qed.

Lemma var_xs_moves (win : list (R * R)) (p q : R * R) :
  (2 <= length win)%nat -> In p win -> In q win -> fst p <> fst q ->
  var (xs win) <> 0.
Proof.
  intros Hn Hp Hq Hne H0.
  pose proof (var_xs_zero_const win Hn H0 p Hp).
  pose proof (var_xs_zero_const win Hn H0 q Hq). congruence.
Qed.

(** ** Positional reads *)

Lemma iloc_neg_nth {A : Type} (k : nat) (l : list A) (a : A) :
  (1 <= k <= length l)%nat ->
  nth_error l (length l - k) = Some a -> iloc_neg k l = Ok a.
Proof.
  intros Hk Ha. unfold iloc_neg. rewrite nth_error_rev.
  assert ((k - 1 <? length l)%nat = true) as -> by (apply Nat.ltb_lt; lia).
  replace (length l - S (k - 1))%nat with (length l - k)%nat by lia.
  now rewrite Ha.
Qed.

Lemma iloc_neg_empty {A : Type} (k : nat) : iloc_neg k (@nil A) = Raise IndexError.
Proof. unfold iloc_neg. simpl. now destruct (k - 1)%nat. Qed.

Lemma snapshot_empty : snapshot [] = Raise IndexError.
Proof. reflexivity. Qed.

Lemma snapshot_single (r : row) :
  snapshot [r]
  = Ok (mkSnapshot (corr r) (beta r) (Fin 0) (Fin 0)
                   (alert_flag (corr r) (beta r))).
Proof. reflexivity. Qed.

Lemma snapshot_last_two (metrics : table) (prev latest : row) :
  (2 <= length metrics)%nat ->
  nth_error metrics (length metrics - 2) = Some prev ->
  nth_error metrics (length metrics - 1) = Some latest ->
  snapshot metrics
  = Ok (mkSnapshot (corr latest) (beta latest)
                   (fsub (corr latest) (corr prev))
                   (fsub (beta latest) (beta prev))
                   (alert_flag (corr latest) (beta latest))).
Proof.
  intros Hn Hp Hl. unfold snapshot.
  rewrite (iloc_neg_nth 1 metrics latest) by (lia || assumption).
  rewrite (iloc_neg_nth 2 metrics prev) by (lia || assumption).
  assert ((1 <? length metrics)%nat = true) as -> by (apply Nat.ltb_lt; lia).
  reflexivity.
Qed.

Lemma fsub_nan_r (a : float) : fsub a NaN = NaN.
Proof. now destruct a. Qed.

(** ** The sample inputs *)

Lemma sample_length (f g : nat -> R) (n : nat) : length (sample f g n) = n.
Proof. unfold sample. now rewrite length_map, length_seq. Qed.

Lemma sample_nth (f g : nat -> R) (n k : nat) :
  (k < n)%nat -> nth_error (sample f g n) k = Some (Z.of_nat k, f k, g k).
Proof.
  intros Hk. unfold sample. rewrite nth_error_map, nth_error_seq.
  apply Nat.ltb_lt in Hk. now rewrite Hk.
Qed.

Lemma sample_returns (f g : nat -> R) (n : nat) :
  returns (sample f g n) = map (fun k => (f k, g k)) (seq 0 n).
Proof. unfold returns, sample. now rewrite map_map. Qed.

Lemma In_sample_returns (f g : nat -> R) (n k : nat) :
  (k < n)%nat -> In (f k, g k) (returns (sample f g n)).
Proof.
  intros Hk. rewrite sample_returns.
  apply (in_map (fun k => (f k, g k))). apply in_seq. lia.
Qed.

Lemma sample_returns_inv (f g : nat -> R) (n : nat) (p : R * R) :
  In p (returns (sample f g n)) -> exists k, p = (f k, g k).
Proof.
  rewrite sample_returns. intros H. apply in_map_iff in H.
  destruct H as [k [Hk _]]. now exists k.
Qed.

(** The last window of a series of exactly [w] rows is the whole series. *)
Lemma window_at_whole (w : nat) (m : list aligned_row) :
  length m = w -> (1 <= w)%nat -> window_at w (returns m) (w - 1) = returns m.
Proof.
  intros Hl Hw. rewrite <- returns_length in Hl. subst w.
  apply window_at_full. intros E. rewrite E in Hw. simpl in Hw. lia.
Qed.

Lemma day_return_moves : day_return 0 <> day_return 1.
Proof. unfold day_return. simpl. lra. Qed.

(** ** A worked table

    Three aligned days and a window of two: the first row is a warm-up row,
    the other two carry the statistics of the two days they end. *)

Lemma fdiv_fin (x y : R) : y <> 0 -> fdiv (Fin x) (Fin y) = Fin (x / y).
Proof.
  intros H. unfold fdiv.
  destruct (Req_dec_T y 0); [contradiction | reflexivity].
Qed.

Example three_days_window_two :
  exists c1 b1 c2 b2,
    rolling_metrics_w 2 [(1%Z, 1, 2); (2%Z, 3, 4); (3%Z, 2, 8)]
    = [mkRow 1%Z 1 2 NaN NaN;
       mkRow 2%Z 3 4 (Fin c1) (Fin b1);
       mkRow 3%Z 2 8 (Fin c2) (Fin b2)]
    /\ c1 = 1 /\ b1 = 1 /\ c2 = -1 /\ b2 = - (1 / 4).
Proof.
  do 4 eexists. split.
  - cbn -[fdiv cov var window_corr]. unfold window_corr, corr_denominator.
    cbn -[fdiv cov var sqrt].
    assert (cov [(1, 2); (3, 4)] = 2) as ->
      by (unfold cov, mean, xs, ys; simpl; field).
    assert (cov [(3, 4); (2, 8)] = -2) as ->
      by (unfold cov, mean, xs, ys; simpl; field).
    assert (var [2; 4] = 2) as -> by (unfold var, ssd, mean; simpl; field).
    assert (var [1; 3] = 2) as -> by (unfold var, ssd, mean; simpl; field).
    assert (var [4; 8] = 8) as -> by (unfold var, ssd, mean; simpl; field).
    assert (var [3; 2] = 1 / 2) as -> by (unfold var, ssd, mean; simpl; field).
    replace (2 * 2) with (Rsqr 2) by (unfold Rsqr; ring).
    replace (1 / 2 * 8) with (Rsqr 2) by (unfold Rsqr; field).
    rewrite sqrt_Rsqr by lra.
    rewrite !fdiv_fin by lra. reflexivity.
  - repeat split; field.
Qed.

(** * The claims *)

Lemma WINDOW_two : (2 <= WINDOW)%nat.
Proof. unfold WINDOW. lia. Qed.

Lemma full_window_rows (m : list aligned_row) (i : nat) :
  (WINDOW - 1 <= i)%nat -> (i < length m)%nat ->
  (2 <= length (window_at WINDOW (returns m) i))%nat.
Proof.
  intros Hw Hi. rewrite window_at_length.
  - exact WINDOW_two.
  - pose proof WINDOW_two. lia.
  - now rewrite returns_length.
Qed.

Lemma row_position (m : list aligned_row) (i : nat) (r : row) :
  nth_error (rolling_metrics m) i = Some r -> (i < length m)%nat.
Proof.
  intros H. rewrite <- (rolling_metrics_length WINDOW).
  apply nth_error_Some. unfold rolling_metrics in H. congruence.
Qed.

Lemma leb_window_full (i : nat) :
  (WINDOW - 1 <= i)%nat -> (WINDOW <=? i + 1)%nat = true.
Proof. intros H. apply Nat.leb_le. lia. Qed.

Lemma leb_window_warmup (i : nat) :
  (i < WINDOW - 1)%nat -> (WINDOW <=? i + 1)%nat = false.
Proof. intros H. apply Nat.leb_gt. lia. Qed.

(** Every row of the table, warm-up or not. *)
Lemma metrics_row_cases (m : list aligned_row) (i : nat) (r : row) :
  nth_error (rolling_metrics m) i = Some r ->
  nth_error m i = Some (r_date r, ret r, twii_ret r)
  /\ ((i < WINDOW - 1)%nat -> corr r = NaN /\ beta r = NaN)
  /\ ((WINDOW - 1 <= i)%nat ->
      corr r = window_corr (window_at WINDOW (returns m) i)
      /\ beta r = window_beta (window_at WINDOW (returns m) i)).
Proof.
  intros H. destruct (rolling_metrics_row WINDOW m i r H) as [Hm [Hc Hb]].
  split; [exact Hm|]. split; intros Hi.
  - now rewrite Hc, Hb, (leb_window_warmup i Hi).
  - now rewrite Hc, Hb, (leb_window_full i Hi).
Qed.

Lemma metrics_row_exists (m : list aligned_row) (i : nat) :
  (i < length m)%nat -> exists r, nth_error (rolling_metrics m) i = Some r.
Proof.
  intros Hi. destruct (nth_error (rolling_metrics m) i) as [r|] eqn:E;
    [now exists r|].
  apply nth_error_None in E. unfold rolling_metrics in E.
  rewrite rolling_metrics_length in E. lia.
Qed.

(** C10. On a row with a full window in which neither sub-window has zero
    sample variance, beta is the correlation times the ratio of the sample
    standard deviation of the strategy to that of the benchmark. *)
Theorem beta_equals_corr_times_sd_ratio (m : list aligned_row) (i : nat) (r : row) :
  nth_error (rolling_metrics m) i = Some r ->
  (WINDOW - 1 <= i)%nat ->
  var (xs (window_at WINDOW (returns m) i)) <> 0 ->
  var (ys (window_at WINDOW (returns m) i)) <> 0 ->
  exists c b,
    corr r = Fin c /\ beta r = Fin b
    /\ b = c * (sqrt (var (xs (window_at WINDOW (returns m) i)))
                / sqrt (var (ys (window_at WINDOW (returns m) i)))).
Proof.
  intros H Hge Hx Hy. pose proof (row_position m i r H) as Hi.
  destruct (metrics_row_cases m i r H) as [_ [_ Hfull]].
  destruct (Hfull Hge) as [-> ->].
  apply window_beta_corr; [now apply full_window_rows | exact Hx | exact Hy].
Qed.

Lemma last_window_tracking60 :
  window_at WINDOW (returns tracking60) 59 = returns tracking60.
Proof.
  apply (window_at_whole WINDOW tracking60); [apply sample_length|].
  unfold WINDOW. lia.
Qed.

Lemma tracking60_strategy_moves : var (xs (returns tracking60)) <> 0.
Proof.
  apply (var_xs_moves _ (day_return 0, day_return 0)
                        (day_return 1, day_return 1)).
  - rewrite returns_length. unfold tracking60. rewrite sample_length. lia.
  - apply (In_sample_returns day_return day_return 60 0). lia.
  - apply (In_sample_returns day_return day_return 60 1). lia.
  - exact day_return_moves.
Qed.

Lemma tracking60_benchmark_moves : var (ys (returns tracking60)) <> 0.
Proof.
  apply (var_ys_moves _ (day_return 0, day_return 0)
                        (day_return 1, day_return 1)).
  - rewrite returns_length. unfold tracking60. rewrite sample_length. lia.
  - apply (In_sample_returns day_return day_return 60 0). lia.
  - apply (In_sample_returns day_return day_return 60 1). lia.
  - exact day_return_moves.
Qed.

Lemma beta_equals_corr_times_sd_ratio_witness :
  exists r c b,
    nth_error (rolling_metrics tracking60) 59 = Some r
    /\ corr r = Fin c /\ beta r = Fin b
    /\ b = c * (sqrt (var (xs (window_at WINDOW (returns tracking60) 59)))
                / sqrt (var (ys (window_at WINDOW (returns tracking60) 59)))).
Proof.
  assert (nth_error (rolling_metrics tracking60) 59
          = Some (mkRow 59%Z (day_return 59) (day_return 59)
                    (window_corr (window_at WINDOW (returns tracking60) 59))
                    (window_beta (window_at WINDOW (returns tracking60) 59))))
    as Hrow by (apply rolling_metrics_nth; reflexivity).
  assert (WINDOW - 1 <= 59)%nat as Hge by (unfold WINDOW; lia).
  assert (var (xs (window_at WINDOW (returns tracking60) 59)) <> 0) as Hx
    by (rewrite last_window_tracking60; exact tracking60_strategy_moves).
  assert (var (ys (window_at WINDOW (returns tracking60) 59)) <> 0) as Hy
    by (rewrite last_window_tracking60; exact tracking60_benchmark_moves).
  destruct (beta_equals_corr_times_sd_ratio tracking60 59 _ Hrow Hge Hx Hy)
    as [c [b H]].
  eexists. exists c, b. split; [exact Hrow | exact H].
Defined.

(** C4 does not hold as stated: with exactly WINDOW aligned observations
    the table has sixty rows, not one, and it has a row at position 0,
    before the window is full. *)
Lemma warmup_rows_are_in_the_table :
  length tracking60 = WINDOW
  /\ length (rolling_metrics tracking60) <> 1%nat
  /\ ~ (forall i r,
           nth_error (rolling_metrics tracking60) i = Some r ->
           (WINDOW - 1 <= i)%nat).
Proof.
  split; [apply sample_length|]. split.
  - unfold rolling_metrics, tracking60.
    rewrite rolling_metrics_length, sample_length. lia.
  - intros H.
    destruct (metrics_row_exists tracking60 0) as [r Hr].
    + unfold tracking60. rewrite sample_length. lia.
    + specialize (H 0%nat r Hr). unfold WINDOW in H. lia.
Qed.

(** C4, amended. The table has one row for every aligned observation.  A
    row before position WINDOW - 1 is present with NaN for correlation and
    beta; a row from position WINDOW - 1 on carries the two statistics of
    its trailing window.  With exactly WINDOW observations exactly one row,
    the last, carries window statistics. *)
Theorem metrics_table_rows (m : list aligned_row) :
  length (rolling_metrics m) = length m
  /\ (forall i r,
         nth_error (rolling_metrics m) i = Some r ->
         nth_error m i = Some (r_date r, ret r, twii_ret r)
         /\ ((i < WINDOW - 1)%nat -> corr r = NaN /\ beta r = NaN)
         /\ ((WINDOW - 1 <= i)%nat ->
             corr r = window_corr (window_at WINDOW (returns m) i)
             /\ beta r = window_beta (window_at WINDOW (returns m) i)))
  /\ (length m = WINDOW ->
      (exists r,
          nth_error (rolling_metrics m) (WINDOW - 1) = Some r
          /\ corr r = window_corr (returns m)
          /\ beta r = window_beta (returns m))
      /\ (forall i r,
             nth_error (rolling_metrics m) i = Some r ->
             i <> (WINDOW - 1)%nat -> corr r = NaN /\ beta r = NaN)).
Proof.
  split; [apply rolling_metrics_length|].
  split; [apply metrics_row_cases|].
  intros Hl. split.
  - destruct (metrics_row_exists m (WINDOW - 1)) as [r Hr];
      [rewrite Hl; unfold WINDOW; lia|].
    exists r. split; [exact Hr|].
    destruct (metrics_row_cases m _ r Hr) as [_ [_ Hfull]].
    destruct (Hfull (le_n _)) as [-> ->].
    rewrite (window_at_whole WINDOW m Hl); [split; reflexivity|].
    unfold WINDOW. lia.
  - intros i r Hr Hne. pose proof (row_position m i r Hr) as Hi.
    destruct (metrics_row_cases m i r Hr) as [_ [Hwarm _]].
    apply Hwarm. lia.
Qed.

Lemma metrics_table_rows_witness :
  length (rolling_metrics tracking60) = 60%nat
  /\ exists r,
      nth_error (rolling_metrics tracking60) (WINDOW - 1) = Some r
      /\ corr r = window_corr (returns tracking60)
      /\ beta r = window_beta (returns tracking60).
Proof.
  destruct (metrics_table_rows tracking60) as [Hlen [_ Hexact]].
  split.
  - rewrite Hlen. apply sample_length.
  - exact (proj1 (Hexact (sample_length day_return day_return 60))).
Defined.

Lemma snapshot_nonempty (metrics : table) :
  metrics <> [] ->
  exists latest,
    nth_error metrics (length metrics - 1) = Some latest
    /\ iloc_neg 1 metrics = Ok latest.
Proof.
  intros Hne.
  assert (0 < length metrics)%nat as Hlen
    by (destruct metrics; [congruence | simpl; lia]).
  destruct (nth_error metrics (length metrics - 1)) as [r|] eqn:E.
  - exists r. split; [reflexivity|]. apply iloc_neg_nth; [lia | exact E].
  - apply nth_error_None in E. lia.
Qed.

(** The snapshot of a non-empty table always exists, and reads the last row. *)
Lemma snapshot_reads_last_row (metrics : table) :
  metrics <> [] ->
  exists latest s,
    nth_error metrics (length metrics - 1) = Some latest
    /\ snapshot metrics = Ok s
    /\ latest_corr s = corr latest /\ latest_beta s = beta latest
    /\ alert s = alert_flag (corr latest) (beta latest).
Proof.
  intros Hne. destruct (snapshot_nonempty metrics Hne) as [latest [Hn Hl]].
  exists latest.
  destruct (Nat.le_gt_cases 2 (length metrics)) as [H2|H1].
  - destruct (nth_error metrics (length metrics - 2)) as [prev|] eqn:E.
    + eexists. split; [exact Hn|].
      rewrite (snapshot_last_two metrics prev latest H2 E Hn). simpl. auto.
    + apply nth_error_None in E. lia.
  - destruct metrics as [|r [|r' t]]; [congruence | | simpl in H1; lia].
    simpl in Hn. injection Hn as ->.
    eexists. split; [reflexivity|]. rewrite snapshot_single. simpl. auto.
Qed.

(** C3 does not hold as stated: on one aligned observation, fewer than
    WINDOW, [calc_metrics] returns a table with a row and the dashboard
    computes a snapshot from it; no error is signalled. *)
Lemma short_series_no_error :
  calc_metrics one_day_strategy one_day_benchmark
  = Ok [mkRow 1%Z (1 / 100) (2 / 100) NaN NaN]
  /\ dashboard one_day_strategy one_day_benchmark
     = Ok (mkSnapshot NaN NaN (Fin 0) (Fin 0) false).
Proof. split; reflexivity. Qed.

Lemma join_on_nothing (s b : Series) (idx : list date) :
  (forall d, In d idx -> get s d = None \/ get b d = None) ->
  join_on s b idx = [].
Proof.
  unfold join_on. induction idx as [|h t IH]; intros H; simpl; [reflexivity|].
  rewrite IH by (intros d Hd; apply H; now right).
  destruct (H h (or_introl eq_refl)) as [-> | ->];
    [reflexivity | now destruct (get s h)].
Qed.

Lemma merge_disjoint (s b : Series) :
  NoDup (index s) -> NoDup (index b) ->
  (forall d, In d (index s) -> ~ In d (index b)) ->
  merge s b = Ok [].
Proof.
  intros Hs Hb Hdis. rewrite (merge_unique s b Hs Hb). f_equal.
  apply join_on_nothing. intros d _.
  destruct (in_dec Z.eq_dec d (index s)) as [Hin|Hn].
  - right. apply get_absent. now apply Hdis.
  - left. now apply get_absent.
Qed.

Lemma short_table_all_nan (m : list aligned_row) (r : row) :
  (length m < WINDOW)%nat -> In r (rolling_metrics m) ->
  corr r = NaN /\ beta r = NaN.
Proof.
  intros Hshort Hin. apply In_nth_error in Hin. destruct Hin as [i Hi].
  pose proof (row_position m i r Hi) as Hpos.
  destruct (metrics_row_cases m i r Hi) as [_ [Hwarm _]].
  apply Hwarm. lia.
Qed.

(** C3, amended. When fewer than WINDOW observations are aligned,
    [calc_metrics] returns normally: a table with one row per aligned
    observation in which every correlation and every beta is NaN.  No
    insufficient-data condition is signalled; from a non-empty such table
    the dashboard computes a snapshot whose values are NaN and whose alert
    is off.  Series with unique and disjoint dates align to the empty
    table. *)
Theorem short_series_all_nan :
  (forall s b m,
      merge s b = Ok m -> (length m < WINDOW)%nat ->
      exists t,
        calc_metrics s b = Ok t
        /\ length t = length m
        /\ (forall r, In r t -> corr r = NaN /\ beta r = NaN)
        /\ (m <> [] ->
            exists snap,
              dashboard s b = Ok snap
              /\ latest_corr snap = NaN /\ latest_beta snap = NaN
              /\ alert snap = false))
  /\ (forall s b,
         NoDup (index s) -> NoDup (index b) ->
         (forall d, In d (index s) -> ~ In d (index b)) ->
         merge s b = Ok [] /\ calc_metrics s b = Ok []).
Proof.
  split.
  - intros s b m Hm Hshort. exists (rolling_metrics m).
    assert (calc_metrics s b = Ok (rolling_metrics m)) as Hcalc
      by (unfold calc_metrics, calc_metrics_w; now rewrite Hm).
    split; [exact Hcalc|].
    split; [apply rolling_metrics_length|].
    split; [intros r; now apply short_table_all_nan|].
    intros Hne.
    assert (rolling_metrics m <> []) as Hne'.
    { intros E. apply (f_equal (@length row)) in E.
      unfold rolling_metrics in E. rewrite rolling_metrics_length in E.
      destruct m; [congruence | discriminate]. }
    destruct (snapshot_reads_last_row _ Hne')
      as [latest [snap [Hn [Hs [Hc [Hb Ha]]]]]].
    exists snap. unfold dashboard. rewrite Hcalc. simpl.
    split; [exact Hs|].
    destruct (short_table_all_nan m latest Hshort (nth_error_In _ _ Hn))
      as [Ec Eb].
    rewrite Hc, Hb, Ha, Ec, Eb. auto.
  - intros s b Hs Hb Hdis.
    pose proof (merge_disjoint s b Hs Hb Hdis) as Hm.
    split; [exact Hm|].
    unfold calc_metrics, calc_metrics_w. now rewrite Hm.
Qed.

Lemma short_series_all_nan_witness :
  (exists t,
      calc_metrics one_day_strategy one_day_benchmark = Ok t
      /\ length t = 1%nat
      /\ (forall r, In r t -> corr r = NaN /\ beta r = NaN)
      /\ exists snap,
          dashboard one_day_strategy one_day_benchmark = Ok snap
          /\ latest_corr snap = NaN /\ latest_beta snap = NaN
          /\ alert snap = false)
  /\ calc_metrics one_day_strategy other_day_benchmark = Ok [].
Proof.
  split.
  - destruct (proj1 short_series_all_nan one_day_strategy one_day_benchmark
                    [(1%Z, 1 / 100, 2 / 100)] eq_refl)
      as [t [Ht [Hl [Hnan Hsnap]]]].
    + unfold WINDOW. simpl. lia.
    + exists t. split; [exact Ht|]. split; [exact Hl|].
      split; [exact Hnan|]. apply Hsnap. discriminate.
  - apply (proj2 short_series_all_nan one_day_strategy other_day_benchmark).
    + repeat constructor. simpl. tauto.
    + repeat constructor. simpl. tauto.
    + simpl. intros d [<-|[]] [H|[]]. discriminate.
Defined.

(** ** Exactly one full window *)

Lemma exact_window_snapshot (m : list aligned_row) :
  length m = WINDOW ->
  snapshot (rolling_metrics m)
  = Ok (mkSnapshot (window_corr (returns m)) (window_beta (returns m))
                   NaN NaN
                   (alert_flag (window_corr (returns m))
                               (window_beta (returns m)))).
Proof.
  intros Hl.
  assert (length (rolling_metrics m) = WINDOW) as Hlen
    by (unfold rolling_metrics; now rewrite rolling_metrics_length).
  destruct (metrics_row_exists m (WINDOW - 1)) as [r Hr];
    [rewrite Hl; unfold WINDOW; lia|].
  destruct (metrics_row_exists m (WINDOW - 2)) as [p Hp];
    [rewrite Hl; unfold WINDOW; lia|].
  destruct (metrics_row_cases m _ r Hr) as [_ [_ Hfull]].
  destruct (Hfull (le_n _)) as [Hc Hb].
  rewrite (window_at_whole WINDOW m Hl) in Hc, Hb by (unfold WINDOW; lia).
  destruct (metrics_row_cases m _ p Hp) as [_ [Hwarm _]].
  destruct Hwarm as [Hpc Hpb]; [unfold WINDOW; lia|].
  rewrite (snapshot_last_two (rolling_metrics m) p r).
  - now rewrite Hc, Hb, Hpc, Hpb, !fsub_nan_r.
  - rewrite Hlen. exact WINDOW_two.
  - now rewrite Hlen.
  - now rewrite Hlen.
Qed.

Lemma returns_In (m : list aligned_row) (p : R * R) :
  In p (returns m) <-> exists d, In (d, fst p, snd p) m.
Proof.
  unfold returns. rewrite in_map_iff. split.
  - intros [[[d x] y] [<- Hin]]. now exists d.
  - intros [d Hin]. exists (d, fst p, snd p). split; [now destruct p | exact Hin].
Qed.

Lemma fgt_fin (x t : R) : fgt (Fin x) t = true <-> t < x.
Proof.
  unfold fgt. destruct (Rlt_dec t x); split; intros; try assumption;
    try reflexivity; try discriminate; contradiction.
Qed.

Lemma alert_flag_fin (c b : R) :
  alert_flag (Fin c) (Fin b) = true <-> 4 / 10 < c \/ 4 / 10 < b.
Proof. unfold alert_flag. now rewrite orb_true_iff, !fgt_fin. Qed.

(** A strategy that is [a] times the benchmark over exactly one window. *)
Lemma scaled_window_snapshot (m : list aligned_row) (a : R) :
  length m = WINDOW -> a <> 0 ->
  (forall d x y, In (d, x, y) m -> x = a * y) ->
  (exists p q, In p m /\ In q m /\ snd p <> snd q) ->
  snapshot (rolling_metrics m)
  = Ok (mkSnapshot (Fin (a / Rabs a)) (Fin a) NaN NaN
                   (alert_flag (Fin (a / Rabs a)) (Fin a))).
Proof.
  intros Hl Ha Hscaled [p [q [Hp [Hq Hne]]]].
  assert (2 <= length (returns m))%nat as Hn
    by (rewrite returns_length, Hl; exact WINDOW_two).
  assert (forall r, In r (returns m) -> fst r = a * snd r) as Hs.
  { intros r Hr. apply returns_In in Hr. destruct Hr as [d Hr].
    now apply (Hscaled d). }
  assert (var (ys (returns m)) <> 0) as Hv.
  { apply (var_ys_moves _ (snd (fst p), snd p) (snd (fst q), snd q) Hn).
    - apply returns_In. exists (fst (fst p)). simpl. now destruct p as [[? ?] ?].
    - apply returns_In. exists (fst (fst q)). simpl. now destruct q as [[? ?] ?].
    - exact Hne. }
  rewrite (exact_window_snapshot m Hl).
  now rewrite (scaled_corr _ a Hn Hs Hv Ha), (scaled_beta _ a Hn Hs Hv).
Qed.

Lemma merge_series_of (f g : nat -> R) (n : nat) :
  merge (series_of f n) (series_of g n) = Ok (sample f g n).
Proof.
  unfold series_of, sample. generalize (seq 0 n) as l. intros l.
  rewrite merge_same_index.
  - f_equal. unfold index, values. rewrite !map_map. simpl.
    induction l as [|k l IH]; simpl; [reflexivity | now rewrite IH].
  - unfold index. now rewrite !map_map.
Qed.

Lemma sample_two_days (f : nat -> R) :
  exists p q : aligned_row,
    In p (sample f day_return 60) /\ In q (sample f day_return 60)
    /\ snd p <> snd q.
Proof.
  exists (Z.of_nat 0, f 0%nat, day_return 0), (Z.of_nat 1, f 1%nat, day_return 1).
  split; [|split].
  - apply (nth_error_In _ 0). apply sample_nth. lia.
  - apply (nth_error_In _ 1). apply sample_nth. lia.
  - exact day_return_moves.
Qed.

Lemma sample_scaled (a : R) (n : nat) (d : date) (x y : R) :
  In (d, x, y) (sample (fun k => a * day_return k) day_return n) -> x = a * y.
Proof.
  unfold sample. rewrite in_map_iff. intros [k [E _]]. now injection E as _ <- <-.
Qed.

Lemma Rabs_minus_one : Rabs (-1) = 1.
Proof. unfold Rabs. destruct (Rcase_abs (-1)); lra. Qed.

Lemma mirror60_snapshot :
  snapshot (rolling_metrics mirror60)
  = Ok (mkSnapshot (Fin (-1)) (Fin (-1)) NaN NaN false).
Proof.
  rewrite (scaled_window_snapshot mirror60 (-1)).
  - rewrite Rabs_minus_one. replace (-1 / 1) with (-1) by field.
    assert (alert_flag (Fin (-1)) (Fin (-1)) = false) as ->; [|reflexivity].
    apply not_true_is_false. rewrite alert_flag_fin. lra.
  - apply sample_length.
  - lra.
  - unfold mirror60, sample. intros d x y H. apply in_map_iff in H.
    destruct H as [k [E _]]. injection E as _ <- <-. ring.
  - apply sample_two_days.
Qed.

(** C1 does not hold as stated: for a strategy that returns the opposite of
    the benchmark on each of sixty days, correlation and beta are both -1,
    above 0.4 in absolute value, and the alert of the dashboard is off. *)
Lemma alert_ignores_negative_values :
  exists s,
    dashboard (series_of (fun k => - day_return k) 60) (series_of day_return 60)
    = Ok s
    /\ latest_corr s = Fin (-1) /\ latest_beta s = Fin (-1)
    /\ alert_flag_abs (latest_corr s) (latest_beta s) = true
    /\ alert s = false.
Proof.
  exists (mkSnapshot (Fin (-1)) (Fin (-1)) NaN NaN false).
  split.
  - unfold dashboard, calc_metrics, calc_metrics_w.
    rewrite merge_series_of. simpl. exact mirror60_snapshot.
  - simpl. repeat split.
    unfold alert_flag_abs, fabs_gt.
    rewrite Rabs_minus_one.
    destruct (Rlt_dec (4 / 10) 1) as [_|N]; [reflexivity | lra].
Qed.

(** A float cell is above a threshold when it is plus infinity or a number
    above it: not when it is NaN or minus infinity. *)
Lemma fgt_exceeds (v : float) (t : R) :
  fgt v t = true <-> v = PInf \/ exists x, v = Fin x /\ t < x.
Proof.
  destruct v as [x| | |]; cbn [fgt].
  - destruct (Rlt_dec t x) as [Hlt|Hge]; split.
    + intros _. right. now exists x.
    + reflexivity.
    + discriminate.
    + intros [H|[y [E Hy]]]; [discriminate|].
      injection E as <-. contradiction.
  - split; auto.
  - split; [discriminate|]. intros [H|[x [H _]]]; discriminate.
  - split; [discriminate|]. intros [H|[x [H _]]]; discriminate.
Qed.

(** C1, amended. The alert is read off the last row of the table alone and
    compares the signed values: it is on exactly when the correlation is
    above 0.4 or the beta is above 0.4, whatever the other cell holds (a
    NaN or minus infinity is above nothing, plus infinity is above 0.4).
    For sixty aligned observations on which the strategy returns what the
    benchmark returns, the benchmark not being constant, the last row has
    correlation 1 and beta 1 and the alert is on. *)
Theorem alert_signed_threshold :
  (forall metrics, metrics <> [] ->
      exists latest s,
        nth_error metrics (length metrics - 1) = Some latest
        /\ snapshot metrics = Ok s
        /\ latest_corr s = corr latest /\ latest_beta s = beta latest
        /\ alert s = alert_flag (corr latest) (beta latest))
  /\ (forall c b : float,
         alert_flag c b = true
         <-> (c = PInf \/ exists x, c = Fin x /\ 4 / 10 < x)
             \/ (b = PInf \/ exists y, b = Fin y /\ 4 / 10 < y))
  /\ (forall c b : R,
         alert_flag (Fin c) (Fin b) = true <-> 4 / 10 < c \/ 4 / 10 < b)
  /\ alert_flag NaN NaN = false
  /\ (forall m,
         length m = WINDOW ->
         (forall d x y, In (d, x, y) m -> x = y) ->
         (exists p q, In p m /\ In q m /\ snd p <> snd q) ->
         exists s,
           snapshot (rolling_metrics m) = Ok s
           /\ latest_corr s = Fin 1 /\ latest_beta s = Fin 1
           /\ alert s = true).
Proof.
  split; [exact snapshot_reads_last_row|].
  split.
  { intros c b. unfold alert_flag.
    now rewrite orb_true_iff, !fgt_exceeds. }
  split; [exact alert_flag_fin|].
  split; [reflexivity|].
  intros m Hl Hsame Hmoves.
  assert (alert_flag (Fin 1) (Fin 1) = true) as Halert
    by (apply alert_flag_fin; lra).
  exists (mkSnapshot (Fin 1) (Fin 1) NaN NaN true).
  split; [|simpl; auto].
  rewrite (scaled_window_snapshot m 1 Hl); [| lra | | exact Hmoves].
  - rewrite Rabs_R1. replace (1 / 1) with 1 by field. now rewrite Halert.
  - intros d x y H. rewrite (Hsame d x y H). ring.
Qed.

Lemma alert_signed_threshold_witness :
  exists s,
    snapshot (rolling_metrics tracking60) = Ok s
    /\ latest_corr s = Fin 1 /\ latest_beta s = Fin 1 /\ alert s = true.
Proof.
  apply (proj2 (proj2 (proj2 (proj2 alert_signed_threshold))) tracking60).
  - apply sample_length.
  - unfold tracking60, sample. intros d x y H. apply in_map_iff in H.
    destruct H as [k [E _]]. now injection E as _ <- <-.
  - apply sample_two_days.
Defined.

(** C6 does not hold as stated: with exactly WINDOW aligned observations
    one row has a full window, the last; the snapshot shows its values, and
    its two deltas are NaN, not zero. *)
Lemma single_full_window_delta_nan :
  length tracking60 = WINDOW
  /\ exists s,
      snapshot (rolling_metrics tracking60) = Ok s
      /\ latest_corr s = window_corr (returns tracking60)
      /\ latest_beta s = window_beta (returns tracking60)
      /\ delta_corr s = NaN /\ delta_beta s = NaN
      /\ delta_corr s <> Fin 0 /\ delta_beta s <> Fin 0.
Proof.
  split; [apply sample_length|].
  eexists. split; [apply exact_window_snapshot, sample_length|].
  simpl. repeat split; discriminate.
Qed.

Lemma snapshot_append_two (rows : table) (prev latest : row) :
  snapshot (rows ++ [prev; latest])
  = Ok (mkSnapshot (corr latest) (beta latest)
                   (fsub (corr latest) (corr prev))
                   (fsub (beta latest) (beta prev))
                   (alert_flag (corr latest) (beta latest))).
Proof.
  apply snapshot_last_two.
  - rewrite length_app. simpl. lia.
  - rewrite length_app. simpl.
    replace (length rows + 2 - 2)%nat with (length rows + 0)%nat by lia.
    now rewrite nth_error_app2, Nat.add_0_r, Nat.sub_diag by lia.
  - rewrite length_app. simpl.
    replace (length rows + 2 - 1)%nat with (length rows + 1)%nat by lia.
    rewrite nth_error_app2 by lia.
    now replace (length rows + 1 - length rows)%nat with 1%nat by lia.
Qed.

(** C6, amended. The rows the snapshot reads are the rows of the table
    [calc_metrics] returns, warm-up rows with NaN included.  The current
    correlation and beta are those of the last row; the deltas are the last
    row minus the second-to-last row in float arithmetic (rows with
    correlations 0.30, 0.45 and betas 0.20, 0.25 give +0.15 and +0.05);
    both deltas are zero when the table has exactly one row.  With exactly
    WINDOW aligned observations the second-to-last row is a warm-up row and
    both deltas are NaN. *)
Theorem snapshot_from_last_two_rows :
  (forall rows prev latest,
      snapshot (rows ++ [prev; latest])
      = Ok (mkSnapshot (corr latest) (beta latest)
                       (fsub (corr latest) (corr prev))
                       (fsub (beta latest) (beta prev))
                       (alert_flag (corr latest) (beta latest))))
  /\ (forall rows d1 x1 y1 d2 x2 y2,
         exists s,
           snapshot (rows ++ [mkRow d1 x1 y1 (Fin (30 / 100)) (Fin (20 / 100));
                              mkRow d2 x2 y2 (Fin (45 / 100)) (Fin (25 / 100))])
           = Ok s
           /\ latest_corr s = Fin (45 / 100) /\ latest_beta s = Fin (25 / 100)
           /\ delta_corr s = Fin (15 / 100) /\ delta_beta s = Fin (5 / 100))
  /\ (forall r,
         snapshot [r]
         = Ok (mkSnapshot (corr r) (beta r) (Fin 0) (Fin 0)
                          (alert_flag (corr r) (beta r))))
  /\ (forall m,
         length m = WINDOW ->
         exists s,
           snapshot (rolling_metrics m) = Ok s
           /\ latest_corr s = window_corr (returns m)
           /\ latest_beta s = window_beta (returns m)
           /\ delta_corr s = NaN /\ delta_beta s = NaN).
Proof.
  split; [exact snapshot_append_two|].
  split; [|split; [exact snapshot_single|]].
  - intros rows d1 x1 y1 d2 x2 y2. eexists.
    split; [apply snapshot_append_two|]. simpl.
    repeat split; f_equal; lra.
  - intros m Hl. eexists. split; [now apply exact_window_snapshot|].
    simpl. auto.
Qed.

(** ** The join, for series without a repeated date *)

Lemma union_index_nodup (l1 l2 : list date) :
  NoDup l1 -> NoDup l2 -> NoDup (union_index l1 l2).
Proof.
  intros H1 H2. unfold union_index.
  destruct (list_eq_dec Z.eq_dec l1 l2) as [_|_]; [exact H1|].
  destruct l2 as [|h2 t2]; [exact H1|].
  destruct l1 as [|h1 t1]; [exact H2|].
  apply (Permutation_NoDup (Permutation_sym (sort_dates_perm _))).
  destruct (msub_nodup (h1 :: t1) (h2 :: t2) H2) as [Hnd Hfresh].
  apply NoDup_app; [exact H1 | exact Hnd|].
  intros d Hd Hd'. exact (Hfresh d Hd' Hd).
Qed.

Lemma join_on_nodup (s b : Series) (idx : list date) :
  NoDup idx -> NoDup (dates (join_on s b idx)).
Proof.
  induction 1 as [|h t Hnotin Hnd IH]; [constructor|].
  unfold join_on in *. simpl.
  destruct (get s h) as [u|]; destruct (get b h) as [v|]; simpl; try exact IH.
  constructor; [|exact IH].
  intros Hin. apply Hnotin. eapply dates_join_on, Hin.
Qed.

Lemma index_nil (s : Series) : index s = [] -> s = [].
Proof. unfold index. apply map_eq_nil. Qed.

Lemma join_union_ascending (s b : Series) :
  NoDup (index s) -> NoDup (index b) ->
  index s <> index b \/ ascending (index s) ->
  ascending (dates (join_on s b (union_index (index s) (index b)))).
Proof.
  intros Hs Hb Hor.
  destruct s as [|rs ts]; [rewrite join_on_no_strategy; constructor|].
  destruct b as [|rb tb]; [rewrite join_on_no_benchmark; constructor|].
  apply join_on_ascending, union_index_ascending; try assumption; discriminate.
Qed.

Lemma In_index (s : Series) (d : date) (v : option R) :
  In (d, v) s -> In d (index s).
Proof. intros H. change d with (fst (d, v)). now apply in_map. Qed.

(** C2 does not hold as stated: the sample log has unique dates, day 1 is a
    date of both series, yet the joined frame has no row for it (the
    strategy return of that day is missing); and the frame keeps the order
    of the log, day 3 before day 2. *)
Lemma merge_drops_gaps_and_keeps_order :
  NoDup (index gappy_strategy) /\ NoDup (index gappy_benchmark)
  /\ In 1%Z (index gappy_strategy) /\ In 1%Z (index gappy_benchmark)
  /\ exists rows,
      merge gappy_strategy gappy_benchmark = Ok rows
      /\ rows = [(3%Z, 1 / 100, 3 / 100); (2%Z, 2 / 100, 5 / 100)]
      /\ ~ In 1%Z (dates rows)
      /\ ~ ascending (dates rows).
Proof.
  assert (NoDup [3%Z; 1%Z; 2%Z]) as Hnd.
  { repeat (constructor; [simpl; intuition discriminate|]). constructor. }
  split; [exact Hnd|]. split; [exact Hnd|].
  split; [simpl; auto|]. split; [simpl; auto|].
  eexists. split; [reflexivity|]. split; [reflexivity|]. split.
  - simpl. intuition discriminate.
  - simpl. intros H. inversion H as [|? ? _ Hall]; subst.
    inversion Hall as [|? ? Hlt _]; subst. lia.
Qed.

(** C2, amended. For two series with unique dates the joined frame has
    exactly one row for every date at which both series hold a return that
    is not missing, and no other row; the row carries these two returns.
    The rows are in strictly ascending date order unless both series carry
    the same date index and that index is itself out of order. *)
Theorem merge_inner_join (s b : Series) :
  NoDup (index s) -> NoDup (index b) ->
  exists rows,
    merge s b = Ok rows
    /\ (forall d x y, In (d, x, y) rows <-> In (d, Some x) s /\ In (d, Some y) b)
    /\ NoDup (dates rows)
    /\ (index s <> index b \/ ascending (index s) -> ascending (dates rows)).
Proof.
  intros Hs Hb. exists (join_on s b (union_index (index s) (index b))).
  split; [now apply merge_unique|]. split; [|split].
  - intros d x y. rewrite In_join_on. split.
    + intros [_ [Hx Hy]]. split; now apply get_In.
    + intros [Hx Hy]. split; [|split; now apply get_unique].
      apply In_union_index. left. eapply In_index, Hx.
  - apply join_on_nodup. now apply union_index_nodup.
  - now apply join_union_ascending.
Qed.

Lemma merge_inner_join_witness :
  exists rows,
    merge dated_strategy three_day_benchmark = Ok rows
    /\ (forall d x y,
           In (d, x, y) rows
           <-> In (d, Some x) dated_strategy /\ In (d, Some y) three_day_benchmark)
    /\ NoDup (dates rows)
    /\ (index dated_strategy <> index three_day_benchmark
        \/ ascending (index dated_strategy) -> ascending (dates rows)).
Proof.
  apply (merge_inner_join dated_strategy three_day_benchmark).
  - repeat (constructor; [simpl; intuition discriminate|]). constructor.
  - repeat (constructor; [simpl; intuition discriminate|]). constructor.
Defined.

(** ** Repeated dates *)

Lemma calc_metrics_of_merge (s b : Series) (m : list aligned_row) :
  merge s b = Ok m -> calc_metrics s b = Ok (rolling_metrics m).
Proof. intros H. unfold calc_metrics, calc_metrics_w. now rewrite H. Qed.

Lemma reindex_refused (s : Series) (idx : list date) :
  ~ NoDup (index s) -> index s <> idx -> reindex s idx = Raise ReindexError.
Proof.
  intros Hdup Hne. unfold reindex.
  destruct (list_eq_dec Z.eq_dec (index s) idx) as [E|_]; [contradiction|].
  destruct (NoDup_dec Z.eq_dec (index s)) as [H|_]; [contradiction | reflexivity].
Qed.

Lemma reindex_outcome (s : Series) (idx : list date) :
  (exists col, reindex s idx = Ok col) \/ reindex s idx = Raise ReindexError.
Proof.
  unfold reindex.
  destruct (list_eq_dec Z.eq_dec (index s) idx); [left; eauto|].
  destruct (NoDup_dec Z.eq_dec (index s)); [left; eauto | now right].
Qed.

(** C7 does not hold as stated: each of the two sample series holds two
    entries for day 1, and [calc_metrics] returns a table that pairs them
    by position. *)
Lemma duplicate_dates_accepted :
  ~ NoDup (index twice_strategy) /\ ~ NoDup (index twice_benchmark)
  /\ calc_metrics twice_strategy twice_benchmark
     = Ok [mkRow 1%Z (1 / 100) (3 / 100) NaN NaN;
           mkRow 1%Z (2 / 100) (4 / 100) NaN NaN].
Proof.
  assert (~ NoDup [1%Z; 1%Z]) as Hdup.
  { intros H. inversion H as [|? ? Hn _]; subst. apply Hn. now left. }
  split; [exact Hdup|]. split; [exact Hdup | reflexivity].
Qed.

(** C7, amended. [calc_metrics] has no check of its own for repeated dates
    and no ValidationError.  Two series over the same date index, repeated
    dates included, are paired row by row and a table is returned.  A series
    with a repeated date whose index is not the index of the joined frame
    makes the reindexing of pandas raise its own error. *)
Theorem same_index_paired_by_position :
  (forall s b,
      index s = index b ->
      calc_metrics s b
      = Ok (rolling_metrics
              (dropna (combine (combine (index s) (values s)) (values b)))))
  /\ (forall s b,
         (~ NoDup (index s) /\ index s <> union_index (index s) (index b))
         \/ (~ NoDup (index b) /\ index b <> union_index (index s) (index b)) ->
         calc_metrics s b = Raise ReindexError).
Proof.
  split.
  - intros s b E. apply calc_metrics_of_merge. now apply merge_same_index.
  - intros s b H. unfold calc_metrics, calc_metrics_w, merge, concat_axis1.
    cbv zeta.
    destruct H as [[Hdup Hne]|[Hdup Hne]].
    + now rewrite (reindex_refused s _ Hdup Hne).
    + rewrite (reindex_refused b _ Hdup Hne).
      destruct (reindex_outcome s (union_index (index s) (index b)))
        as [[col ->] | ->]; reflexivity.
Qed.

Lemma same_index_paired_by_position_witness :
  calc_metrics twice_strategy twice_benchmark
  = Ok (rolling_metrics
          (dropna (combine (combine (index twice_strategy)
                                    (values twice_strategy))
                           (values twice_benchmark))))
  /\ calc_metrics twice_strategy other_day_benchmark = Raise ReindexError.
Proof.
  split.
  - apply (proj1 same_index_paired_by_position). reflexivity.
  - apply (proj2 same_index_paired_by_position). left. split.
    + intros H. inversion H as [|? ? Hn _]; subst. apply Hn. now left.
    + simpl. discriminate.
Defined.

(** ** The order of the rows of the inputs *)

Lemma Permutation_nonempty {A : Type} (l l' : list A) :
  Permutation l l' -> l <> [] -> l' <> [].
Proof.
  intros Hp Hne E. subst l'. apply Hne.
  apply Permutation_nil. now apply Permutation_sym.
Qed.

Lemma merge_order_independent (s s' b b' : Series) :
  NoDup (index s) -> NoDup (index b) ->
  Permutation s s' -> Permutation b b' ->
  index s <> index b \/ ascending (index s) ->
  index s' <> index b' \/ ascending (index s') ->
  merge s b = merge s' b'.
Proof.
  intros Hs Hb Ps Pb Hor Hor'.
  assert (NoDup (index s')) as Hs'
    by exact (Permutation_NoDup (Permutation_index s s' Ps) Hs).
  assert (NoDup (index b')) as Hb'
    by exact (Permutation_NoDup (Permutation_index b b' Pb) Hb).
  rewrite (merge_unique s b Hs Hb), (merge_unique s' b' Hs' Hb'). f_equal.
  destruct s as [|rs ts].
  { apply Permutation_nil in Ps. subst s'. now rewrite !join_on_no_strategy. }
  destruct b as [|rb tb].
  { apply Permutation_nil in Pb. subst b'. now rewrite !join_on_no_benchmark. }
  assert (s' <> []) as Ns' by (apply (Permutation_nonempty _ _ Ps); discriminate).
  assert (b' <> []) as Nb' by (apply (Permutation_nonempty _ _ Pb); discriminate).
  assert (union_index (index (rs :: ts)) (index (rb :: tb))
          = union_index (index s') (index b')) as ->.
  { apply ascending_unique.
    - apply union_index_ascending; try assumption; discriminate.
    - apply union_index_ascending; try assumption;
        intros E; apply index_nil in E; contradiction.
    - intros d. rewrite !In_union_index.
      pose proof (Permutation_index _ _ Ps) as Pis.
      pose proof (Permutation_index _ _ Pb) as Pib.
      split; intros [H|H].
      + left. exact (Permutation_in d Pis H).
      + right. exact (Permutation_in d Pib H).
      + left. exact (Permutation_in d (Permutation_sym Pis) H).
      + right. exact (Permutation_in d (Permutation_sym Pib) H). }
  apply join_on_ext; intros d; now apply get_perm.
Qed.

(** C8 does not hold as stated: the same two days of returns, stored latest
    first in both series or in date order in both, give two different
    tables. *)
Lemma row_order_changes_result :
  Permutation latest_first_strategy dated_strategy
  /\ Permutation latest_first_benchmark dated_benchmark
  /\ NoDup (index latest_first_strategy)
  /\ NoDup (index latest_first_benchmark)
  /\ calc_metrics latest_first_strategy latest_first_benchmark
     = Ok [mkRow 2%Z (1 / 100) (3 / 100) NaN NaN;
           mkRow 1%Z (2 / 100) (4 / 100) NaN NaN]
  /\ calc_metrics dated_strategy dated_benchmark
     = Ok [mkRow 1%Z (2 / 100) (4 / 100) NaN NaN;
           mkRow 2%Z (1 / 100) (3 / 100) NaN NaN]
  /\ calc_metrics latest_first_strategy latest_first_benchmark
     <> calc_metrics dated_strategy dated_benchmark.
Proof.
  assert (NoDup [2%Z; 1%Z]) as Hnd.
  { repeat (constructor; [simpl; intuition discriminate|]). constructor. }
  split; [apply perm_swap|]. split; [apply perm_swap|].
  split; [exact Hnd|]. split; [exact Hnd|].
  assert (calc_metrics latest_first_strategy latest_first_benchmark
          = Ok [mkRow 2%Z (1 / 100) (3 / 100) NaN NaN;
                mkRow 1%Z (2 / 100) (4 / 100) NaN NaN]) as E1 by reflexivity.
  assert (calc_metrics dated_strategy dated_benchmark
          = Ok [mkRow 1%Z (2 / 100) (4 / 100) NaN NaN;
                mkRow 2%Z (1 / 100) (3 / 100) NaN NaN]) as E2 by reflexivity.
  split; [exact E1|]. split; [exact E2|].
  rewrite E1, E2. intros H. injection H as Hd _. discriminate.
Qed.

(** C8, amended. [calc_metrics] is a function of its two arguments: equal
    inputs give equal results, and nothing else is read or written.  For
    series with unique dates the result does not depend on the order in
    which either series stores its rows, as long as the two series do not
    carry one and the same out-of-order date index (it is enough that the
    benchmark is in date order). *)
Theorem calc_metrics_order_independent (s s' b b' : Series) :
  NoDup (index s) -> NoDup (index b) ->
  Permutation s s' -> Permutation b b' ->
  index s <> index b \/ ascending (index s) ->
  index s' <> index b' \/ ascending (index s') ->
  calc_metrics s b = calc_metrics s' b'
  /\ dashboard s b = dashboard s' b'.
Proof.
  intros Hs Hb Ps Pb Hor Hor'.
  assert (calc_metrics s b = calc_metrics s' b') as E.
  { unfold calc_metrics, calc_metrics_w.
    now rewrite (merge_order_independent s s' b b' Hs Hb Ps Pb Hor Hor'). }
  split; [exact E|]. unfold dashboard. now rewrite E.
Qed.

Lemma calc_metrics_order_independent_witness :
  calc_metrics latest_first_strategy three_day_benchmark
  = calc_metrics dated_strategy three_day_benchmark
  /\ dashboard latest_first_strategy three_day_benchmark
     = dashboard dated_strategy three_day_benchmark.
Proof.
  apply (calc_metrics_order_independent
           latest_first_strategy dated_strategy
           three_day_benchmark three_day_benchmark).
  - repeat (constructor; [simpl; intuition discriminate|]). constructor.
  - repeat (constructor; [simpl; intuition discriminate|]). constructor.
  - apply perm_swap.
  - apply Permutation_refl.
  - left. simpl. discriminate.
  - left. simpl. discriminate.
Defined.

(** * Further properties of the code *)

(** ** The daily returns of the benchmark *)

Lemma pct_change_from_nth (t : Prices) (prev : R) (dprev : date) (i : nat)
      (d0 d1 : date) (p0 p1 : R) :
  nth_error ((dprev, prev) :: t) i = Some (d0, p0) ->
  nth_error ((dprev, prev) :: t) (S i) = Some (d1, p1) ->
  nth_error (pct_change_from prev t) i
  = Some (d1, fsub (fdiv (Fin p1) (Fin p0)) (Fin 1)).
Proof.
  revert prev dprev i. induction t as [|[d p] t IH]; intros prev dprev i H0 H1.
  - simpl in H1. now destruct i.
  - destruct i as [|i]; simpl in *.
    + now injection H0 as _ <-; injection H1 as <- <-.
    + now apply (IH p d i).
Qed.

Lemma pct_change_nth (prices : Prices) (i : nat) (d0 d1 : date) (p0 p1 : R) :
  nth_error prices i = Some (d0, p0) ->
  nth_error prices (S i) = Some (d1, p1) ->
  nth_error (pct_change prices) (S i)
  = Some (d1, fsub (fdiv (Fin p1) (Fin p0)) (Fin 1)).
Proof.
  destruct prices as [|[d p] t]; [now destruct i|].
  intros H0 H1. simpl. exact (pct_change_from_nth t p d i d0 d1 p0 p1 H0 H1).
Qed.

Lemma simple_return (p prev : R) :
  prev <> 0 -> fsub (fdiv (Fin p) (Fin prev)) (Fin 1) = Fin (p / prev - 1).
Proof. intros H. now rewrite fdiv_fin. Qed.

Lemma pct_change_from_kept (t : Prices) (prev : R) :
  prev <> 0 -> (forall d p, In (d, p) t -> p <> 0) ->
  dropna_cells (pct_change_from prev t) = pct_change_from prev t.
Proof.
  revert prev. induction t as [|[d p] t IH]; intros prev Hprev Ht; [reflexivity|].
  unfold dropna_cells in *. cbn [pct_change_from].
  rewrite (simple_return p prev Hprev). cbn [filter snd notna].
  rewrite IH; [reflexivity | |].
  - apply (Ht d). now left.
  - intros d' p' H. apply (Ht d'). now right.
Qed.

Lemma taiex_returns_nonzero (d : date) (p : R) (t : Prices) :
  (forall d' p', In (d', p') ((d, p) :: t) -> p' <> 0) ->
  taiex_returns ((d, p) :: t) = pct_change_from p t.
Proof.
  intros H. unfold taiex_returns. simpl.
  apply pct_change_from_kept.
  - apply (H d). now left.
  - intros d' p' Hin. apply (H d'). now right.
Qed.

Lemma pct_change_from_length (t : Prices) (prev : R) :
  length (pct_change_from prev t) = length t.
Proof.
  revert prev. induction t as [|[d p] t IH]; intros prev; simpl;
    [reflexivity | now rewrite IH].
Qed.

(** X1. From prices that are never zero, [fetch_taiex] returns one return
    per day after the first, dated by that day and equal to the price over
    the previous price minus one; no row is missing or infinite. *)
Theorem taiex_returns_of_prices (prices : Prices) :
  (forall d p, In (d, p) prices -> p <> 0) ->
  length (taiex_returns prices) = (length prices - 1)%nat
  /\ forall i d0 p0 d1 p1,
      nth_error prices i = Some (d0, p0) ->
      nth_error prices (S i) = Some (d1, p1) ->
      nth_error (taiex_returns prices) i = Some (d1, Fin (p1 / p0 - 1)).
Proof.
  intros Hnz. destruct prices as [|[d p] t]; [split; [reflexivity|]|].
  - intros i d0 p0 d1 p1 H. now destruct i.
  - rewrite (taiex_returns_nonzero d p t Hnz). split.
    + rewrite pct_change_from_length. simpl. lia.
    + intros i d0 p0 d1 p1 H0 H1.
      rewrite (pct_change_from_nth t p d i d0 d1 p0 p1 H0 H1).
      rewrite simple_return; [reflexivity|].
      apply (Hnz d0). eapply nth_error_In, H0.
Qed.

Lemma taiex_returns_of_prices_witness :
  taiex_returns [(1%Z, 100); (2%Z, 110); (3%Z, 99)]
  = [(2%Z, Fin (110 / 100 - 1)); (3%Z, Fin (99 / 110 - 1))].
Proof.
  assert (forall d p, In (d, p) [(1%Z, 100); (2%Z, 110); (3%Z, 99)] -> p <> 0)
    as Hnz.
  { simpl. intros d p [H|[H|[H|[]]]]; injection H as _ <-; lra. }
  destruct (taiex_returns_of_prices _ Hnz) as [Hlen Hnth].
  pose proof (Hnth 0%nat 1%Z 100 2%Z 110 eq_refl eq_refl) as H0.
  pose proof (Hnth 1%nat 2%Z 110 3%Z 99 eq_refl eq_refl) as H1.
  destruct (taiex_returns [(1%Z, 100); (2%Z, 110); (3%Z, 99)])
    as [|r0 [|r1 [|r2 l]]]; try discriminate.
  simpl in H0, H1. now injection H0 as ->; injection H1 as ->.
Defined.

(** X2. The prices after the first are rebuilt from the first price and
    the returns of [fetch_taiex] by compounding, when no price is zero. *)
Theorem prices_rebuilt_from_returns (d : date) (p : R) (rest : Prices) :
  (forall d' p', In (d', p') ((d, p) :: rest) -> p' <> 0) ->
  compound p (taiex_returns ((d, p) :: rest)) = rest.
Proof.
  intros Hnz. rewrite (taiex_returns_nonzero d p rest Hnz).
  revert d p Hnz. induction rest as [|[d1 p1] t IH]; intros d p Hnz;
    [reflexivity|].
  assert (p <> 0) as Hp by (apply (Hnz d); now left).
  cbn [pct_change_from]. rewrite (simple_return p1 p Hp). cbn [compound].
  replace (p * (1 + (p1 / p - 1))) with p1 by (field; exact Hp).
  f_equal. apply (IH d1).
  intros d' p' H. apply (Hnz d'). now right.
Qed.

Lemma prices_rebuilt_from_returns_witness :
  compound 100 (taiex_returns [(1%Z, 100); (2%Z, 110); (3%Z, 99)])
  = [(2%Z, 110); (3%Z, 99)].
Proof.
  apply (prices_rebuilt_from_returns 1%Z 100 [(2%Z, 110); (3%Z, 99)]).
  simpl. intros d p [H|[H|[H|[]]]]; injection H as _ <-; lra.
Defined.

(** X3. A price of zero followed by a positive price puts an infinite
    return into the benchmark series: [dropna] does not remove it. *)
Theorem zero_price_infinite_return (prices : Prices) (i : nat)
        (d0 d1 : date) (p1 : R) :
  nth_error prices i = Some (d0, 0) ->
  nth_error prices (S i) = Some (d1, p1) ->
  0 < p1 ->
  In (d1, PInf) (taiex_returns prices).
Proof.
  intros H0 H1 Hpos. unfold taiex_returns, dropna_cells.
  apply filter_In. split; [|reflexivity].
  apply (nth_error_In _ (S i)).
  rewrite (pct_change_nth prices i d0 d1 0 p1 H0 H1). do 2 f_equal.
  unfold fdiv. destruct (Req_dec_T 0 0) as [_|N]; [|now elim N].
  destruct (Req_dec_T p1 0) as [E|_]; [lra|].
  destruct (Rlt_dec 0 p1) as [_|N]; [reflexivity | contradiction].
Qed.

Lemma zero_price_infinite_return_witness :
  In (2%Z, PInf) (taiex_returns [(1%Z, 0); (2%Z, 110)]).
Proof.
  apply (zero_price_infinite_return [(1%Z, 0); (2%Z, 110)] 0 1%Z 2%Z 110);
    [reflexivity | reflexivity | lra].
Defined.

(** ** The range asked of the provider *)

Lemma min_date_spec (rest : list date) (d : date) :
  In (min_date d rest) (d :: rest)
  /\ forall x, In x (d :: rest) -> (min_date d rest <= x)%Z.
Proof.
  unfold min_date. revert d.
  induction rest as [|h t IH]; intros d; simpl.
  - split; [now left | intros x [E|[]]; lia].
  - destruct (IH (Z.min d h)) as [Hin Hle]. split.
    + destruct Hin as [E|Hin]; [|now right; right].
      rewrite <- E. destruct (Z.min_spec d h) as [[_ ->]|[_ ->]]; auto.
    + pose proof (Hle (Z.min d h) (or_introl eq_refl)) as H0.
      intros x [E|[E|Hx]]; [subst x; lia | subst x; lia|].
      apply Hle. now right.
Qed.

Lemma max_date_spec (rest : list date) (d : date) :
  In (max_date d rest) (d :: rest)
  /\ forall x, In x (d :: rest) -> (x <= max_date d rest)%Z.
Proof.
  unfold max_date. revert d.
  induction rest as [|h t IH]; intros d; simpl.
  - split; [now left | intros x [E|[]]; lia].
  - destruct (IH (Z.max d h)) as [Hin Hle]. split.
    + destruct Hin as [E|Hin]; [|now right; right].
      rewrite <- E. destruct (Z.max_spec d h) as [[_ ->]|[_ ->]]; auto.
    + pose proof (Hle (Z.max d h) (or_introl eq_refl)) as H0.
      intros x [E|[E|Hx]]; [subst x; lia | subst x; lia|].
      apply Hle. now right.
Qed.

(** X4. The range [start, end) that [main] asks of the provider holds every
    date of the log, starts on a date of the log and ends the day after a
    date of the log. *)
Theorem fetch_range_covers_log (d : date) (rest : list date) :
  (forall x, In x (d :: rest) ->
             (fst (fetch_range d rest) <= x < snd (fetch_range d rest))%Z)
  /\ In (fst (fetch_range d rest)) (d :: rest)
  /\ In (snd (fetch_range d rest) - 1)%Z (d :: rest).
Proof.
  destruct (min_date_spec rest d) as [Hmin Hle].
  destruct (max_date_spec rest d) as [Hmax Hge].
  unfold fetch_range. cbn [fst snd]. split; [|split].
  - intros x Hx. specialize (Hle x Hx). specialize (Hge x Hx). lia.
  - exact Hmin.
  - now replace (max_date d rest + 1 - 1)%Z with (max_date d rest) by lia.
Qed.

(** ** The cumulated curves *)

Lemma cumsum_from_length (l : list R) (acc : R) :
  length (cumsum_from acc l) = length l.
Proof.
  revert acc. induction l as [|x t IH]; intros acc; simpl;
    [reflexivity | now rewrite IH].
Qed.

Lemma cumsum_from_nth (l : list R) (acc : R) (i : nat) :
  (i < length l)%nat ->
  nth_error (cumsum_from acc l) i = Some (acc + rsum (firstn (S i) l)).
Proof.
  revert acc i. induction l as [|x t IH]; intros acc i Hi; [simpl in Hi; lia|].
  destruct i as [|i].
  - simpl. f_equal. destruct t; simpl; lra.
  - cbn [cumsum_from nth_error]. rewrite IH by (simpl in Hi; lia).
    f_equal. change (firstn (S (S i)) (x :: t)) with (x :: firstn (S i) t).
    cbn [rsum fold_right]. unfold rsum. lra.
Qed.

Lemma perf_length (metrics : table) : length (perf metrics) = length metrics.
Proof.
  unfold perf, cumsum.
  rewrite !length_combine, !cumsum_from_length, !length_map. lia.
Qed.

(** X5. The chart of cumulated returns has one point per row of the table,
    on the date of the row; the point holds the sum of the strategy returns
    and the sum of the benchmark returns of all rows up to it. *)
Theorem perf_partial_sums (metrics : table) (i : nat) (r : row) :
  nth_error metrics i = Some r ->
  length (perf metrics) = length metrics
  /\ nth_error (perf metrics) i
     = Some (r_date r,
             rsum (map ret (firstn (S i) metrics)),
             rsum (map twii_ret (firstn (S i) metrics))).
Proof.
  intros Hr. split; [apply perf_length|].
  assert (i < length metrics)%nat as Hi by (apply nth_error_Some; congruence).
  unfold perf, cumsum.
  rewrite !nth_error_combine, nth_error_map, Hr,
    !cumsum_from_nth by (now rewrite length_map).
  cbn [option_map]. now rewrite <- !firstn_map, !Rplus_0_l.
Qed.

Lemma perf_partial_sums_witness :
  nth_error (perf [mkRow 1%Z 1 2 NaN NaN; mkRow 2%Z 3 4 NaN NaN]) 1
  = Some (2%Z, rsum [1; 3], rsum [2; 4]).
Proof.
  exact (proj2 (perf_partial_sums
                  [mkRow 1%Z 1 2 NaN NaN; mkRow 2%Z 3 4 NaN NaN] 1
                  (mkRow 2%Z 3 4 NaN NaN) eq_refl)).
Defined.

(** ** What a row of the table depends on *)

Lemma window_at_map {A B : Type} (f : A -> B) (w : nat) (l : list A) (i : nat) :
  window_at w (map f l) i = map f (window_at w l i).
Proof. unfold window_at. now rewrite skipn_map, firstn_map. Qed.

Lemma window_at_app_l {A : Type} (w : nat) (l l' : list A) (i : nat) :
  (w <= i + 1)%nat -> (i < length l)%nat ->
  window_at w (l ++ l') i = window_at w l i.
Proof.
  intros Hw Hi. unfold window_at. rewrite skipn_app, firstn_app.
  replace (w - length (skipn (i + 1 - w) l))%nat with 0%nat
    by (rewrite length_skipn; lia).
  now rewrite firstn_0, app_nil_r.
Qed.

Lemma returns_app (m m' : list aligned_row) :
  returns (m ++ m') = returns m ++ returns m'.
Proof. apply map_app. Qed.

(** X6. Observations aligned after a row do not change it: the table of a
    longer series starts with the table of the shorter one. *)
Theorem later_rows_do_not_revise (m m' : list aligned_row) (i : nat) (r : row) :
  nth_error (rolling_metrics m) i = Some r ->
  nth_error (rolling_metrics (m ++ m')) i = Some r.
Proof.
  intros Hr. pose proof (row_position m i r Hr) as Hi.
  destruct (rolling_metrics_row WINDOW m i r Hr) as [Hm [Hc Hb]].
  unfold rolling_metrics. destruct r as [d x y c b].
  cbn [r_date ret twii_ret corr beta] in Hm, Hc, Hb.
  rewrite (rolling_metrics_nth WINDOW (m ++ m') i d x y)
    by (now rewrite nth_error_app1).
  rewrite Hc, Hb. do 2 f_equal.
  all: destruct (WINDOW <=? i + 1)%nat eqn:E; [|reflexivity].
  all: apply Nat.leb_le in E.
  all: now rewrite returns_app, window_at_app_l by (rewrite ?returns_length; lia).
Qed.

Lemma later_rows_do_not_revise_witness :
  nth_error (rolling_metrics (tracking60 ++ flat60)) 59
  = Some (mkRow 59%Z (day_return 59) (day_return 59)
            (window_corr (window_at WINDOW (returns tracking60) 59))
            (window_beta (window_at WINDOW (returns tracking60) 59))).
Proof.
  apply (later_rows_do_not_revise tracking60 flat60 59).
  apply rolling_metrics_nth. reflexivity.
Defined.

(** ** Leverage and a constant daily gain *)

Section Affine.
Variable win : list (R * R).
Variables a c : R.
Hypothesis two_rows : (2 <= length win)%nat.
Hypothesis a_positive : 0 < a.











End Affine.



Lemma rescale_length (a c : R) (m : list aligned_row) :
  length (rescale a c m) = length m.
Proof. apply length_map. Qed.



(** ** Exchanging strategy and benchmark *)

Lemma exchanged_cov (win : list (R * R)) :
  cov (map (fun p => (snd p, fst p)) win) = cov win.
Proof.
  unfold cov, mean, xs, ys. rewrite !map_map, !length_map. cbn [fst snd].
  rewrite (rsum_map_ext (fun p => snd p * fst p) (fun p => fst p * snd p))
    by (intros; ring).
  f_equal. f_equal. apply Rmult_comm.
Qed.

Lemma exchanged_corr (win : list (R * R)) :
  window_corr (map (fun p => (snd p, fst p)) win) = window_corr win.
Proof.
  unfold window_corr, corr_denominator. rewrite exchanged_cov.
  unfold xs, ys. rewrite !map_map. cbn [fst snd].
  now rewrite Rmult_comm.
Qed.

Lemma exchange_returns (m : list aligned_row) :
  returns (exchange m) = map (fun p => (snd p, fst p)) (returns m).
Proof. unfold returns, exchange. now rewrite !map_map. Qed.

Lemma union_index_comm (l1 l2 : list date) :
  NoDup l1 -> NoDup l2 -> l1 <> [] -> l2 <> [] ->
  union_index l2 l1 = union_index l1 l2.
Proof.
  intros H1 H2 N1 N2.
  destruct (list_eq_dec Z.eq_dec l1 l2) as [->|Hne]; [reflexivity|].
  apply ascending_unique.
  - apply union_index_ascending; auto.
  - apply union_index_ascending; auto.
  - intros d. rewrite !In_union_index. tauto.
Qed.

Lemma join_on_exchange (s b : Series) (idx : list date) :
  join_on b s idx = exchange (join_on s b idx).
Proof.
  unfold join_on, exchange. induction idx as [|h t IH]; [reflexivity|].
  cbn [map dropna].
  destruct (get s h) as [x|]; destruct (get b h) as [y|]; cbn [map];
    now rewrite IH.
Qed.

Lemma merge_exchange (s b : Series) :
  NoDup (index s) -> NoDup (index b) ->
  merge b s = Ok (exchange (join_on s b (union_index (index s) (index b)))).
Proof.
  intros Hs Hb. rewrite (merge_unique b s Hb Hs). f_equal.
  destruct s as [|rs ts].
  { now rewrite join_on_no_benchmark, join_on_no_strategy. }
  destruct b as [|rb tb].
  { now rewrite join_on_no_strategy, join_on_no_benchmark. }
  rewrite union_index_comm by (auto; discriminate).
  apply join_on_exchange.
Qed.

(** X9. Correlation does not tell strategy from benchmark: for series with
    unique dates, [calc_metrics] with the two series exchanged returns a
    table with the same dates and the same correlations, the two return
    columns exchanged. *)
Theorem correlation_symmetric (s b : Series) :
  NoDup (index s) -> NoDup (index b) ->
  exists t t',
    calc_metrics s b = Ok t /\ calc_metrics b s = Ok t'
    /\ length t' = length t
    /\ forall i r,
        nth_error t i = Some r ->
        exists r',
          nth_error t' i = Some r'
          /\ r_date r' = r_date r
          /\ ret r' = twii_ret r /\ twii_ret r' = ret r
          /\ corr r' = corr r.
Proof.
  intros Hs Hb.
  set (m := join_on s b (union_index (index s) (index b))).
  exists (rolling_metrics m), (rolling_metrics (exchange m)).
  split; [apply calc_metrics_of_merge; now apply merge_unique|].
  split; [apply calc_metrics_of_merge; now apply merge_exchange|].
  split.
  - unfold rolling_metrics, exchange.
    now rewrite !rolling_metrics_length, length_map.
  - intros i r Hr.
    destruct (rolling_metrics_row WINDOW m i r Hr) as [Hm [Hc _]].
    assert (nth_error (exchange m) i = Some (r_date r, twii_ret r, ret r))
      as Hm'.
    { unfold exchange, aligned_row in *. now rewrite nth_error_map, Hm. }
    eexists. split; [apply (rolling_metrics_nth WINDOW _ i _ _ _ Hm')|].
    cbn [r_date ret twii_ret corr].
    repeat (split; [reflexivity|]).
    rewrite Hc, exchange_returns, window_at_map.
    destruct (WINDOW <=? i + 1)%nat; [|reflexivity].
    apply exchanged_corr.
Qed.

Lemma correlation_symmetric_witness :
  exists t t',
    calc_metrics dated_strategy three_day_benchmark = Ok t
    /\ calc_metrics three_day_benchmark dated_strategy = Ok t'
    /\ length t' = length t
    /\ forall i r,
        nth_error t i = Some r ->
        exists r',
          nth_error t' i = Some r'
          /\ r_date r' = r_date r
          /\ ret r' = twii_ret r /\ twii_ret r' = ret r
          /\ corr r' = corr r.
Proof.
  apply (correlation_symmetric dated_strategy three_day_benchmark).
  - repeat (constructor; [simpl; intuition discriminate|]). constructor.
  - repeat (constructor; [simpl; intuition discriminate|]). constructor.
Defined.

(** ** How many rows are aligned *)

Lemma dates_length (m : list aligned_row) : length (dates m) = length m.
Proof. apply length_map. Qed.

(** X10. For series with unique dates the aligned frame, and with it the
    table, has no more rows than the shorter of the two series. *)
Theorem aligned_rows_bounded (s b : Series) :
  NoDup (index s) -> NoDup (index b) ->
  exists t,
    calc_metrics s b = Ok t
    /\ (length t <= length s)%nat /\ (length t <= length b)%nat.
Proof.
  intros Hs Hb.
  set (m := join_on s b (union_index (index s) (index b))).
  exists (rolling_metrics m).
  split; [apply calc_metrics_of_merge; now apply merge_unique|].
  unfold rolling_metrics. rewrite rolling_metrics_length, <- dates_length.
  assert (NoDup (dates m)) as Hnd
    by (apply join_on_nodup; now apply union_index_nodup).
  assert (forall d, In d (dates m) ->
                    exists x y, get s d = Some x /\ get b d = Some y) as Hin.
  { intros d Hd. unfold dates in Hd. apply in_map_iff in Hd.
    destruct Hd as [[[d' x] y] [E H]]. cbn in E. subst d'.
    apply In_join_on in H. exists x, y. tauto. }
  split.
  - rewrite <- (length_map fst s). apply NoDup_incl_length; [exact Hnd|].
    intros d Hd. destruct (Hin d Hd) as [x [y [Hx _]]].
    eapply In_index, get_In, Hx.
  - rewrite <- (length_map fst b). apply NoDup_incl_length; [exact Hnd|].
    intros d Hd. destruct (Hin d Hd) as [x [y [_ Hy]]].
    eapply In_index, get_In, Hy.
Qed.

Lemma aligned_rows_bounded_witness :
  exists t,
    calc_metrics dated_strategy three_day_benchmark = Ok t
    /\ (length t <= length dated_strategy)%nat
    /\ (length t <= length three_day_benchmark)%nat.
Proof.
  apply (aligned_rows_bounded dated_strategy three_day_benchmark).
  - repeat (constructor; [simpl; intuition discriminate|]). constructor.
  - repeat (constructor; [simpl; intuition discriminate|]). constructor.
Defined.

(** ** A levered benchmark *)

(** X11. On a row whose trailing window holds a strategy that returned [a]
    times the benchmark every day, [a <> 0], the benchmark not being flat,
    beta is [a] and the correlation is the sign of [a]. *)
Theorem levered_benchmark_metrics (a : R) (m : list aligned_row)
        (i : nat) (r : row) :
  (WINDOW - 1 <= i)%nat ->
  nth_error (rolling_metrics m) i = Some r ->
  a <> 0 ->
  (forall p, In p (window_at WINDOW (returns m) i) -> fst p = a * snd p) ->
  (exists p q,
      In p (window_at WINDOW (returns m) i)
      /\ In q (window_at WINDOW (returns m) i) /\ snd p <> snd q) ->
  corr r = Fin (a / Rabs a) /\ beta r = Fin a.
Proof.
  intros Hfull Hr Ha Hscaled [p [q [Hp [Hq Hne]]]].
  pose proof (row_position m i r Hr) as Hi.
  pose proof (full_window_rows m i Hfull Hi) as Hn.
  destruct (metrics_row_cases m i r Hr) as [_ [_ Hrow]].
  destruct (Hrow Hfull) as [-> ->].
  pose proof (var_ys_moves _ p q Hn Hp Hq Hne) as Hv.
  split; [now apply scaled_corr | now apply scaled_beta].
Qed.

Lemma levered_benchmark_metrics_witness :
  exists r,
    nth_error (rolling_metrics
                 (sample (fun k => 2 * day_return k) day_return 60)) 59
    = Some r
    /\ corr r = Fin (2 / Rabs 2) /\ beta r = Fin 2.
Proof.
  set (m := sample (fun k => 2 * day_return k) day_return 60).
  assert (window_at WINDOW (returns m) 59 = returns m) as Hwin.
  { apply (window_at_whole WINDOW m); [apply sample_length|].
    unfold WINDOW. lia. }
  destruct (metrics_row_exists m 59) as [r Hr].
  { unfold m. rewrite sample_length. lia. }
  exists r. split; [exact Hr|].
  apply (levered_benchmark_metrics 2 m 59 r).
  - unfold WINDOW. lia.
  - exact Hr.
  - lra.
  - rewrite Hwin. intros p Hp. apply sample_returns_inv in Hp.
    destruct Hp as [k ->]. reflexivity.
  - rewrite Hwin.
    exists (2 * day_return 0, day_return 0), (2 * day_return 1, day_return 1).
    split; [|split].
    + apply (In_sample_returns (fun k => 2 * day_return k) day_return 60 0). lia.
    + apply (In_sample_returns (fun k => 2 * day_return k) day_return 60 1). lia.
    + exact day_return_moves.
Defined.

(** ** Runs of the page *)

(** X13. A run without an upload and without a click on the add button
    leaves the log on disk as it was, whatever it shows. *)
Theorem main_display_keeps_log (fetch : date -> date -> Series)
        (csv : option Log) (w : Widgets) :
  uploaded w = None -> add_clicked w = false ->
  fst (main fetch csv w) = csv.
Proof.
  intros Hu Hc. unfold main. rewrite Hu, Hc.
  destruct csv as [[|[d v] rest]|]; try reflexivity.
  cbv zeta. destruct (calc_metrics _ _) as [metrics|e]; [|reflexivity].
  destruct (snapshot metrics); reflexivity.
Qed.

Lemma main_display_keeps_log_witness :
  fst (main (fun _ _ => one_day_benchmark) (Some one_day_strategy)
            (mkWidgets None false 2%Z 0))
  = Some one_day_strategy.
Proof.
  apply (main_display_keeps_log (fun _ _ => one_day_benchmark)
           (Some one_day_strategy) (mkWidgets None false 2%Z 0));
    reflexivity.
Defined.

(** X14. A click on the add button, without an upload, writes the log with
    the new record after all earlier rows and stops.  No earlier row is
    replaced: if the log already has a row for the new date, it has two
    afterwards. *)
Theorem main_add_appends (fetch : date -> date -> Series) (log : Log)
        (w : Widgets) :
  uploaded w = None -> add_clicked w = true ->
  main fetch (Some log) w
  = (Some (log ++ [(new_date w, Some (new_ret w))]), Recorded)
  /\ (In (new_date w) (index log) ->
      ~ NoDup (index (log ++ [(new_date w, Some (new_ret w))]))).
Proof.
  intros Hu Hc. split; [unfold main; now rewrite Hu, Hc|].
  intros Hin Hnd. unfold index in Hnd. rewrite map_app in Hnd.
  apply NoDup_remove_2 in Hnd. apply Hnd.
  rewrite app_nil_r. exact Hin.
Qed.

Lemma main_add_appends_witness :
  main (fun _ _ => []) (Some one_day_strategy)
       (mkWidgets None true 1%Z (3 / 100))
  = (Some (one_day_strategy ++ [(1%Z, Some (3 / 100))]), Recorded)
  /\ ~ NoDup (index (one_day_strategy ++ [(1%Z, Some (3 / 100))])).
Proof.
  destruct (main_add_appends (fun _ _ => []) one_day_strategy
              (mkWidgets None true 1%Z (3 / 100)) eq_refl eq_refl)
    as [Hmain Hdup].
  split; [exact Hmain|]. apply Hdup. simpl. now left.
Defined.

(** X15. [main] consults the provider for one range only, from the first
    date of the log to the day after its last date: two providers that
    agree on that range give the same run. *)
Theorem main_provider_range (fetch fetch' : date -> date -> Series)
        (csv : option Log) (w : Widgets) :
  (forall d v rest,
      csv = Some ((d, v) :: rest) ->
      fetch (fst (fetch_range d (index rest))) (snd (fetch_range d (index rest)))
      = fetch' (fst (fetch_range d (index rest)))
               (snd (fetch_range d (index rest)))) ->
  main fetch csv w = main fetch' csv w.
Proof.
  intros H. unfold main. destruct (uploaded w); [reflexivity|].
  destruct (add_clicked w); [reflexivity|].
  destruct csv as [[|[d v] rest]|]; try reflexivity.
  cbv zeta. now rewrite (H d v rest eq_refl).
Qed.

Lemma main_provider_range_witness :
  main (fun a b => if (b <=? 2)%Z then one_day_benchmark else [])
       (Some one_day_strategy) (mkWidgets None false 2%Z 0)
  = main (fun _ _ => one_day_benchmark)
         (Some one_day_strategy) (mkWidgets None false 2%Z 0).
Proof.
  apply main_provider_range.
  intros d v rest E. injection E as <- <- <-. reflexivity.
Defined.

(** X16. When the log and the series of the provider have unique dates and
    no date in common, the run does not warn: it fails with IndexError at
    [metrics.iloc[-1]], the log untouched. *)
Theorem main_no_common_date (fetch : date -> date -> Series)
        (d : date) (v : option R) (rest : Log) (w : Widgets) :
  uploaded w = None -> add_clicked w = false ->
  NoDup (index ((d, v) :: rest)) ->
  NoDup (index (fetch (fst (fetch_range d (index rest)))
                      (snd (fetch_range d (index rest))))) ->
  (forall x,
      In x (index ((d, v) :: rest)) ->
      ~ In x (index (fetch (fst (fetch_range d (index rest)))
                           (snd (fetch_range d (index rest)))))) ->
  main fetch (Some ((d, v) :: rest)) w
  = (Some ((d, v) :: rest), Failed IndexError).
Proof.
  intros Hu Hc Hs Hb Hdis. unfold main. rewrite Hu, Hc. cbv zeta.
  rewrite (calc_metrics_of_merge _ _ [] (merge_disjoint _ _ Hs Hb Hdis)).
  reflexivity.
Qed.

Lemma main_no_common_date_witness :
  main (fun _ _ => other_day_benchmark) (Some one_day_strategy)
       (mkWidgets None false 2%Z 0)
  = (Some one_day_strategy, Failed IndexError).
Proof.
  apply (main_no_common_date (fun _ _ => other_day_benchmark)
           1%Z (Some (1 / 100)) [] (mkWidgets None false 2%Z 0)).
  - reflexivity.
  - reflexivity.
  - repeat constructor. simpl. tauto.
  - repeat constructor. simpl. tauto.
  - simpl. intros x [<-|[]] [H|[]]. discriminate.
Defined.

(** X17. Without an upload and without a click, the run ends on the
    no-data warning exactly when there is no log file or the log has no
    row. *)
Theorem main_warns_iff_empty (fetch : date -> date -> Series)
        (csv : option Log) (w : Widgets) :
  uploaded w = None -> add_clicked w = false ->
  (snd (main fetch csv w) = NoData <-> csv = None \/ csv = Some []).
Proof.
  intros Hu Hc. unfold main. rewrite Hu, Hc.
  destruct csv as [[|[d v] rest]|]; cbn [snd].
  - split; auto.
  - cbv zeta. split.
    + destruct (calc_metrics _ _) as [metrics|e]; [|discriminate].
      destruct (snapshot metrics); discriminate.
    + intros [H|H]; discriminate.
  - split; auto.
Qed.

Lemma main_warns_iff_empty_witness :
  snd (main (fun _ _ => one_day_benchmark) (Some [])
            (mkWidgets None false 2%Z 0))
  = NoData.
Proof.
  apply (main_warns_iff_empty (fun _ _ => one_day_benchmark) (Some [])
           (mkWidgets None false 2%Z 0) eq_refl eq_refl).
  now right.
Defined.
